(** * SeqExchange: the swap module ([swap.py])

    A shallow embedding of the randomized transformation engine of
    SeqExchange: OTU selection, receiver-sequence swapping, cross
    contamination and noise injection.

    Python's module-level [random] source is an explicit tape of draws
    threaded through every call; exceptions are an explicit result;
    [Sequence] objects live in a store and are named by reference, so that
    the aliasing between the alignment's list and the sets the engine
    collects is the one the program has. *)

From Stdlib Require Import String Ascii List ListSet Arith Bool Lia.
From Stdlib Require Import DecimalString PrimFloat Uint63 ZArith.
Import ListNotations.
Local Open Scope string_scope.
Local Open Scope nat_scope.

(** ** Exceptions and the random source *)

Module Py.

(** The exceptions the module can raise. *)
Inductive exn : Type :=
| SampleLargerThanPopulation   (* ValueError of random.sample *)
| EmptyRange                   (* ValueError of random.randint *)
| NotInList                    (* ValueError of list.remove *)
| IndexError.                  (* list index out of range *)

Inductive result (A : Type) : Type :=
| Ok (a : A)
| Raise (e : exn).
Arguments Ok {A} a.
Arguments Raise {A} e.

(** Whether a call returned. *)
Definition returned {A} (r : result A) : bool :=
  match r with Ok _ => true | Raise _ => false end.

(** The random source: an infinite tape of natural numbers and a cursor.
    Every call of [random] reads the next cell; how the cell is turned
    into a choice is written at each primitive. *)
Record Rng : Type := mkRng { tape : nat -> nat; cursor : nat }.

(** Computations that read the random source and may raise. *)
Definition M (A : Type) : Type := Rng -> result (A * Rng).

Definition ret {A} (a : A) : M A := fun g => Ok (a, g).

Definition bind {A B} (c : M A) (k : A -> M B) : M B :=
  fun g => match c g with
           | Ok (a, g') => k a g'
           | Raise e => Raise e
           end.

Definition raise {A} (e : exn) : M A := fun _ => Raise e.

Definition lift {A} (r : result A) : M A :=
  fun g => match r with Ok a => Ok (a, g) | Raise e => Raise e end.

Definition next : M nat :=
  fun g => Ok (tape g (cursor g), mkRng (tape g) (S (cursor g))).

End Py.
Import Py.

Declare Scope py_scope.
Delimit Scope py_scope with py.
Notation "x <- c ;; k" := (bind c (fun x => k))
  (at level 61, c at next level, right associativity) : py_scope.
Notation "' p <- c ;; k" := (bind c (fun x => let 'p := x in k))
  (at level 61, p pattern, c at next level, right associativity) : py_scope.
Local Open Scope py_scope.

(** ** Python lists and sets *)

(** [l[i]], raising IndexError out of range. *)
Definition getitem {A} (l : list A) (i : nat) : result A :=
  match nth_error l i with
  | Some x => Ok x
  | None => Raise IndexError
  end.

(** [l[i] = x], raising IndexError out of range. *)
Fixpoint setitem {A} (l : list A) (i : nat) (x : A) : result (list A) :=
  match l, i with
  | [], _ => Raise IndexError
  | _ :: l', 0 => Ok (x :: l')
  | y :: l', S i' =>
      match setitem l' i' x with
      | Ok l'' => Ok (y :: l'')
      | Raise e => Raise e
      end
  end.

(** The list without its element at index [i]. *)
Fixpoint drop_nth {A} (i : nat) (l : list A) : list A :=
  match l, i with
  | [], _ => []
  | _ :: l', 0 => l'
  | x :: l', S i' => x :: drop_nth i' l'
  end.

(** [range(a, b)]. *)
Definition range (a b : nat) : list nat := seq a (b - a).

(** ** The random module *)

(** [random.randrange(n)]: a number below [n]. *)
Definition randrange (n : nat) : M nat :=
  match n with
  | 0 => raise EmptyRange
  | S _ => r <- next ;; ret (r mod n)
  end.

(** [random.randint(a, b)]: a number in [[a, b]], both ends included. *)
Definition randint (a b : nat) : M nat :=
  if b <? a then raise EmptyRange
  else r <- next ;; ret (a + r mod (S (b - a))).

(** The draws of [random.sample]: [k] times, one element of the pool is
    chosen by the tape and taken out of the pool. *)
Fixpoint sample_loop {A} (k : nat) (pool : list A) : M (list A) :=
  match k with
  | 0 => ret []
  | S k' =>
      match pool with
      | [] => raise SampleLargerThanPopulation
      | d :: _ =>
          r <- next ;;
          let i := r mod (length pool) in
          xs <- sample_loop k' (drop_nth i pool) ;;
          ret (nth i pool d :: xs)
      end
  end.

(** [random.sample(population, k)]: [k] elements at distinct positions of
    the population; ValueError when [k] exceeds its size.  A set given as
    population, which Python accepts up to version 3.10, is the list of its
    elements; every choice of [k] positions is the choice of some tape. *)
Definition sample {A} (population : list A) (k : nat) : M (list A) :=
  if length population <? k then raise SampleLargerThanPopulation
  else sample_loop k population.

(** The elements a sample takes when the cells it reads hold [draws]. *)
Fixpoint taken {A} (draws : list nat) (pool : list A) : list A :=
  match draws, pool with
  | r :: draws', d :: _ =>
      let i := r mod (length pool) in
      nth i pool d :: taken draws' (drop_nth i pool)
  | _, _ => []
  end.

(** ** add_noise *)

(** The loop [for index, position in enumerate(positions):
      sequence[position] = sequence[replacements[index]]],
    the buffer being updated in place from one iteration to the next. *)
Fixpoint substitute (index : nat) (positions replacements : list nat)
    (sequence : list ascii) : result (list ascii) :=
  match positions with
  | [] => Ok sequence
  | position :: positions' =>
      match getitem replacements index with
      | Raise e => Raise e
      | Ok source =>
          match getitem sequence source with
          | Raise e => Raise e
          | Ok c =>
              match setitem sequence position c with
              | Raise e => Raise e
              | Ok sequence' =>
                  substitute (S index) positions' replacements sequence'
              end
          end
      end
  end.

Definition add_noise (sequence : string) (max_substitutions : nat)
  : M (string * nat) :=
  substitutions <- randint 1 max_substitutions ;;
  positions <- sample (range 1 (String.length sequence)) substitutions ;;
  replacements <- sample (range 1 (String.length sequence)) substitutions ;;
  sequence' <- lift (substitute 0 positions replacements
                       (list_ascii_of_string sequence)) ;;
  ret (string_of_list_ascii sequence', substitutions).

(** ** Sequences and alignments *)

(** A reference to a [Sequence] object: its identity. *)
Definition ref : Type := nat.

Record Sequence : Type := mkSequence {
  otu : string;
  identifier : string;
  description : string;
  sequence_data : string
}.

(** An alignment and the objects it refers to: [store] gives the current
    fields of every object, [fresh] is the next unused reference and
    [sequences] is the alignment's list, holding references (an object may
    be listed more than once). *)
Record MSA : Type := mkMSA {
  store : ref -> Sequence;
  fresh : ref;
  sequences : list ref
}.

(** [seq.otu] *)
Definition otu_of (msa : MSA) (seq : ref) : string := otu (store msa seq).

Definition update (msa : MSA) (seq : ref) (f : Sequence -> Sequence) : MSA :=
  mkMSA (fun r => if r =? seq then f (store msa r) else store msa r)
        (fresh msa) (sequences msa).

(** [seq.description = value] *)
Definition set_description (msa : MSA) (seq : ref) (value : string) : MSA :=
  update msa seq (fun s =>
    mkSequence (otu s) (identifier s) value (sequence_data s)).

Definition set_sequence_data (msa : MSA) (seq : ref) (value : string) : MSA :=
  update msa seq (fun s =>
    mkSequence (otu s) (identifier s) (description s) value).

(** The two parts of a label [otu@identifier]. *)
Fixpoint label_otu (label : string) : string :=
  match label with
  | EmptyString => EmptyString
  | String c rest =>
      if Ascii.eqb c "@" then EmptyString else String c (label_otu rest)
  end.

Fixpoint label_identifier (label : string) : string :=
  match label with
  | EmptyString => EmptyString
  | String c rest =>
      if Ascii.eqb c "@" then rest else label_identifier rest
  end.

Definition relabel (msa : MSA) (seq : ref) : MSA :=
  update msa seq (fun s =>
    mkSequence (label_otu (description s)) (label_identifier (description s))
               (description s) (sequence_data s)).

(** Modelled from the spec: the alignment class is not part of the module.
    [otus()] is the set of distinct OTU identifiers of the sequences
    present, a new set at each call. *)
Definition otus (msa : MSA) : set string :=
  fold_left (fun acc seq => set_add string_dec (otu_of msa seq) acc)
            (sequences msa) (empty_set string).

(** [l.remove(x)]: the first occurrence goes, ValueError when there is
    none. *)
Fixpoint list_remove (x : ref) (l : list ref) : result (list ref) :=
  match l with
  | [] => Raise NotInList
  | y :: l' =>
      if y =? x then Ok l'
      else match list_remove x l' with
           | Ok l'' => Ok (y :: l'')
           | Raise e => Raise e
           end
  end.

(** Modelled from the spec: [remove_sequence(seq)] removes this object from
    the live list of the alignment, in place; it is also what
    [msa.sequences.remove(seq)] does. *)
Definition remove_sequence (msa : MSA) (seq : ref) : result MSA :=
  match list_remove seq (sequences msa) with
  | Ok l => Ok (mkMSA (store msa) (fresh msa) l)
  | Raise e => Raise e
  end.

(** Modelled from the spec: [add_sequence(sequence, description,
    sequence_data)] takes the object given, or constructs a new one when
    there is none, sets the description and the data that are given, takes
    the OTU and the identifier from the label [otu@identifier] that the
    description is, and appends the object to the alignment's list. *)
Definition add_sequence (msa : MSA) (sequence : option ref)
    (description sequence_data : option string) : MSA :=
  let seq := match sequence with Some r => r | None => fresh msa end in
  let msa := match sequence with
             | Some _ => msa
             | None =>
                 update (mkMSA (store msa) (S (fresh msa)) (sequences msa)) seq
                   (fun _ => mkSequence "" "" "" "")
             end in
  let msa := match description with
             | Some d => set_description msa seq d
             | None => msa
             end in
  let msa := match sequence_data with
             | Some d => set_sequence_data msa seq d
             | None => msa
             end in
  let msa := relabel msa seq in
  mkMSA (store msa) (fresh msa) (sequences msa ++ [seq]).

(** ** Python's [in] *)

(** [a in b] on two strings: [a] occurs in [b]. *)
Fixpoint substring_of (a b : string) : bool :=
  if String.prefix a b then true
  else match b with
       | EmptyString => false
       | String _ b' => substring_of a b'
       end.

(** What the module passes as [otus]: a single OTU, that is a string, or a
    list or set of OTUs. *)
Inductive container : Type :=
| Str (s : string)
| Coll (l : list string).

Definition mem (x : string) (l : list string) : bool :=
  existsb (String.eqb x) l.

(** [x in otus] *)
Definition contains (otus : container) (x : string) : bool :=
  match otus with
  | Str s => substring_of x s
  | Coll l => mem x l
  end.

(** [set(s)] of a string: its characters, each a string of length one. *)
Definition set_of_string (s : string) : set string :=
  fold_left (fun acc c => set_add string_dec (String c EmptyString) acc)
            (list_ascii_of_string s) (empty_set string).

(** [str(n)] *)
Definition str (n : nat) : string :=
  NilEmpty.string_of_uint (Nat.to_uint n).

(** ** Query helpers *)

Definition get_seqs_from_otus (msa : MSA) (otus : container) : set ref :=
  fold_left (fun seqs_from_otus seq =>
               if contains otus (otu_of msa seq)
               then set_add Nat.eq_dec seq seqs_from_otus
               else seqs_from_otus)
            (sequences msa) (empty_set ref).

(** The loop of [remove_seqs_from_otu]: the list iterator is an index into
    the live list, which [remove_sequence] shortens while the loop runs.
    [fuel] bounds the number of iterations. *)
Fixpoint remove_seqs_loop (fuel index : nat) (otus : container) (msa : MSA)
  : result MSA :=
  match fuel with
  | 0 => Ok msa
  | S fuel' =>
      match nth_error (sequences msa) index with
      | None => Ok msa
      | Some seq =>
          if contains otus (otu_of msa seq)
          then match remove_sequence msa seq with
               | Ok msa' => remove_seqs_loop fuel' (S index) otus msa'
               | Raise e => Raise e
               end
          else remove_seqs_loop fuel' (S index) otus msa
      end
  end.

Definition remove_seqs_from_otu (msa : MSA) (otus : container) : result MSA :=
  remove_seqs_loop (length (sequences msa)) 0 otus msa.

(** A dict from OTUs to counts, in insertion order. *)
Definition dict : Type := list (string * nat).

(** [d[k] = v] *)
Fixpoint dict_set (k : string) (v : nat) (d : dict) : dict :=
  match d with
  | [] => [(k, v)]
  | (k', v') :: d' =>
      if String.eqb k' k then (k', v) :: d' else (k', v') :: dict_set k v d'
  end.

(** [d[k] += 1], for a key of the dict. *)
Fixpoint dict_incr (k : string) (d : dict) : dict :=
  match d with
  | [] => []
  | (k', v') :: d' =>
      if String.eqb k' k then (k', S v') :: d' else (k', v') :: dict_incr k d'
  end.

Definition receivers_in_msa (msa : MSA) (receivers : list string) : dict :=
  let receiver_count :=
    fold_left (fun d otu => dict_set otu 0 d) receivers [] in
  fold_left (fun d seq =>
               if mem (otu_of msa seq) receivers
               then dict_incr (otu_of msa seq) d
               else d)
            (sequences msa) receiver_count.

(** ** pick_otus_randomly *)

(** [count] is a number of OTUs, a natural number, and [exclude] is given
    at every call. *)
Definition pick_otus_randomly (msa : MSA) (count : nat)
    (exclude : list string) : M (list string) :=
  let otus_in_msa := otus msa in
  let otus_in_msa :=
    fold_left (fun acc otu =>
                 if mem otu acc then set_remove string_dec otu acc else acc)
              exclude otus_in_msa in
  if length otus_in_msa <? count then ret []
  else sample otus_in_msa count.

(** The candidates of [pick_otus_randomly] as the specification words
    them: the OTUs of the alignment that are not excluded. *)
Definition candidates (msa : MSA) (exclude : list string) : list string :=
  filter (fun otu => negb (mem otu exclude)) (otus msa).

(** ** The swap engine *)

Fixpoint randomly_assign_seqs (msa : MSA) (sequences : list ref)
    (otus : set string) : M MSA :=
  match sequences with
  | [] => ret msa
  | seq :: sequences' =>
      picked <- sample otus 1 ;;
      otu' <- lift (getitem picked 0) ;;
      let new_description :=
        otu' ++ "@" ++ identifier (store msa seq) ++ "_from_"
             ++ otu_of msa seq in
      let msa := set_description msa seq new_description in
      let msa := add_sequence msa (Some seq) None None in
      randomly_assign_seqs msa sequences' otus
  end.

(** [for seq in chosen: msa.sequences.remove(seq)] *)
Fixpoint remove_each (msa : MSA) (chosen : list ref) : result MSA :=
  match chosen with
  | [] => Ok msa
  | seq :: chosen' =>
      match remove_sequence msa seq with
      | Ok msa' => remove_each msa' chosen'
      | Raise e => Raise e
      end
  end.

(** "remove old sequences", with the value [swap_count] has at that
    point. *)
Definition remove_old (msa : MSA) (otu : string) (swap_count : nat) : M MSA :=
  let receiver_seqs := get_seqs_from_otus msa (Str otu) in
  chosen <- sample receiver_seqs swap_count ;;
  lift (remove_each msa chosen).

(** "assign new sequences", with the same value of [swap_count]. *)
Definition assign_new (msa : MSA) (otu : string) (swap_count : nat)
    (receivers : list string) : M MSA :=
  donors <- pick_otus_randomly msa swap_count receivers ;;
  let seqs := get_seqs_from_otus msa (Coll donors) in
  msa <- lift (remove_seqs_from_otu msa (Coll donors)) ;;
  randomly_assign_seqs msa seqs (set_of_string otu).

(** What the loop of [replace_receiver_seqs] carries from one receiver to
    the next; the two numbers are the ones the function reports. *)
Record swap_state : Type := mkSwap {
  sw_msa : MSA;
  swap_count : nat;
  affected_receivers : set string
}.

(** One iteration of the loop, for the receiver [otu] whose entry in
    [receiver_count] is [count]. *)
Definition swap_receiver (receivers : list string) (st : swap_state)
    (otu : string) (count : nat) : M swap_state :=
  if count <=? 1 then ret st
  else
    let swap_count := swap_count st + (count - 1) in
    msa <- remove_old (sw_msa st) otu swap_count ;;
    let affected_receivers :=
      set_add string_dec otu (affected_receivers st) in
    msa <- assign_new msa otu swap_count receivers ;;
    ret (mkSwap msa swap_count affected_receivers).

Fixpoint swap_loop (receivers : list string) (receiver_count : dict)
    (st : swap_state) : M swap_state :=
  match receiver_count with
  | [] => ret st
  | (otu, count) :: rest =>
      st' <- swap_receiver receivers st otu count ;;
      swap_loop receivers rest st'
  end.

Definition replace_receiver_seqs (msa : MSA) (receivers : list string)
  : M swap_state :=
  let receiver_count := receivers_in_msa msa receivers in
  swap_loop receivers receiver_count (mkSwap msa 0 (empty_set string)).

(** The cumulative surplus as the specification words it: the sum of
    [count - 1] over the receivers whose count exceeds one. *)
Fixpoint cumulative_surplus (receiver_count : dict) : nat :=
  match receiver_count with
  | [] => 0
  | (_, count) :: rest =>
      (if 1 <? count then count - 1 else 0) + cumulative_surplus rest
  end.

(** ** The contamination engine *)

(** [random.randrange(100) > (likelihood * 100)], on binary64 floats as
    Python has them; the draw is below 100 and so is a float exactly. *)
Definition spared (likelihood : float) (draw : nat) : bool :=
  PrimFloat.ltb (PrimFloat.mul likelihood 100%float)
                (PrimFloat.of_uint63 (Uint63.of_Z (Z.of_nat draw))).

Record contamination_state : Type := mkContamination {
  cc_msa : MSA;
  contamination_count : nat
}.

(** What follows the two guards of the loop: one contamination event on
    the receiver [otu]. *)
Definition contaminate (st : contamination_state) (otu : string)
    (max_substitutions : nat) : M contamination_state :=
  let contamination_count := S (contamination_count st) in
  let msa := cc_msa st in
  let otu_seqs := get_seqs_from_otus msa (Str otu) in
  picked <- sample otu_seqs 1 ;;
  original_seq <- lift (getitem picked 0) ;;
  ' (contaminated_seq, substitutions) <-
    add_noise (sequence_data (store msa original_seq)) max_substitutions ;;
  picked' <- sample (sequences msa) 1 ;;
  contaminant <- lift (getitem picked' 0) ;;
  let contaminant_identifier :=
    identifier (store msa original_seq) ++ "_contaminated_" ++ otu ++ "_"
      ++ str substitutions ++ "_subs" in
  let contaminant_description :=
    otu_of msa contaminant ++ "@" ++ contaminant_identifier in
  let msa := add_sequence msa None (Some contaminant_description)
                          (Some contaminated_seq) in
  msa <- lift (remove_sequence msa contaminant) ;;
  ret (mkContamination msa contamination_count).

(** One iteration of the loop of [cross_contaminate]. *)
Definition contaminate_receiver (likelihood : float) (max_substitutions : nat)
    (st : contamination_state) (otu : string) (count : nat)
  : M contamination_state :=
  if count =? 0 then ret st
  else
    draw <- randrange 100 ;;
    if spared likelihood draw then ret st
    else contaminate st otu max_substitutions.

Fixpoint contaminate_loop (likelihood : float) (max_substitutions : nat)
    (receiver_count : dict) (st : contamination_state)
  : M contamination_state :=
  match receiver_count with
  | [] => ret st
  | (otu, count) :: rest =>
      st' <- contaminate_receiver likelihood max_substitutions st otu count ;;
      contaminate_loop likelihood max_substitutions rest st'
  end.

Definition cross_contaminate (msa : MSA) (receivers : list string)
    (likelihood : float) (max_substitutions : nat) : M contamination_state :=
  let receiver_count := receivers_in_msa msa receivers in
  contaminate_loop likelihood max_substitutions receiver_count
                   (mkContamination msa 0).

(** ** Alignments to run the engines on *)

Definition empty_msa : MSA :=
  mkMSA (fun _ => mkSequence "" "" "" "") 0 [].

(** The alignment with one sequence for each [(description, data)], in this
    order: what reading a file leaves. *)
Definition msa_of (entries : list (string * string)) : MSA :=
  fold_left (fun msa e => add_sequence msa None (Some (fst e)) (Some (snd e)))
            entries empty_msa.

(** A random source whose tape is the given list, followed by zeros. *)
Definition rng_of (draws : list nat) : Rng :=
  mkRng (fun i => nth i draws 0) 0.

(** The descriptions of the sequences of an alignment, in its order. *)
Definition labels (msa : MSA) : list string :=
  map (fun seq => description (store msa seq)) (sequences msa).

(** What a call of [replace_receiver_seqs] shows when it returns: the
    number of sequences and the receivers it reports, and the labels of the
    alignment. *)
Definition swap_report (r : result (swap_state * Rng))
  : option (nat * list string * list string) :=
  match r with
  | Ok (st, _) =>
      Some (swap_count st, affected_receivers st, labels (sw_msa st))
  | Raise _ => None
  end.

(** The same for [cross_contaminate]: the number of events it reports and
    the labels of the alignment. *)
Definition contamination_report (r : result (contamination_state * Rng))
  : option (nat * list string) :=
  match r with
  | Ok (st, _) => Some (contamination_count st, labels (cc_msa st))
  | Raise _ => None
  end.

(** Two taxa with two sequences each. *)
Definition two_taxa : MSA :=
  msa_of [("Homo@1", "ACGT"); ("Homo@2", "ACGA");
          ("Mus@1", "TTTT"); ("Mus@2", "GGGG")].

(** A receiver with two sequences and a single sequence to import. *)
Definition one_donor : MSA :=
  msa_of [("Homo@1", "ACGT"); ("Homo@2", "ACGA"); ("Mus@1", "TTTT")].

(** Two receivers, with three and with two sequences. *)
Definition three_and_two : MSA :=
  msa_of [("A@1", "ACGT"); ("A@2", "ACGA"); ("A@3", "ACGG");
          ("B@1", "TTTT"); ("B@2", "TTTA")].

(** Two receivers with two sequences each, and three other taxa. *)
Definition two_receivers : MSA :=
  msa_of [("A@1", "ACGT"); ("A@2", "ACGA"); ("B@1", "TTTT"); ("B@2", "TTTA");
          ("C@1", "GGGG"); ("D@1", "GGGA"); ("E@1", "GGGC")].


(** ** Notions the properties are stated with *)

(** [d[k]], [None] standing for KeyError. *)
Fixpoint dict_get (k : string) (d : dict) : option nat :=
  match d with
  | [] => None
  | (k', v) :: d' => if String.eqb k' k then Some v else dict_get k d'
  end.

(** The number of sequences of the alignment whose OTU is [otu]. *)
Definition count_otu (msa : MSA) (otu : string) : nat :=
  length (filter (fun seq => String.eqb (otu_of msa seq) otu) (sequences msa)).

(** The list a loop leaves that removes the elements satisfying [p] from
    the list it iterates over: the element that follows a removed one is
    not looked at. *)
Fixpoint step_over (p : ref -> bool) (l : list ref) : list ref :=
  match l with
  | [] => []
  | x :: l' =>
      if p x
      then match l' with
           | [] => []
           | y :: l'' => y :: step_over p l''
           end
      else x :: step_over p l'
  end.

(** Whether two elements satisfying [p] follow each other in the list. *)
Fixpoint adjacent (p : ref -> bool) (l : list ref) : bool :=
  match l with
  | [] => false
  | x :: l' =>
      match l' with
      | [] => false
      | y :: _ => (p x && p y) || adjacent p l'
      end
  end.

(** The entries of [receiver_count] that the loop of [cross_contaminate]
    does not skip at its first guard. *)
Definition present (receiver_count : dict) : dict :=
  filter (fun e => negb (snd e =? 0)) receiver_count.

(** The entries of [receiver_count] that the loop of
    [replace_receiver_seqs] does not skip. *)
Definition surplus (receiver_count : dict) : dict :=
  filter (fun e => negb (snd e <=? 1)) receiver_count.

(** * Properties *)

(** ** Running a computation *)

Lemma bind_ok {A B} (c : M A) (k : A -> M B) g b g' :
  bind c k g = Ok (b, g') ->
  exists a g1, c g = Ok (a, g1) /\ k a g1 = Ok (b, g').
Proof.
  unfold bind. destruct (c g) as [[a g1]|e]; [|discriminate].
  intros H. exists a, g1. split; [reflexivity|exact H].
Qed.

Lemma lift_ok {A} (r : result A) g a g' :
  lift r g = Ok (a, g') -> r = Ok a /\ g' = g.
Proof.
  unfold lift. destruct r; [|discriminate].
  intros H. injection H as -> ->. split; reflexivity.
Qed.

Lemma ret_ok {A} (a : A) g b g' : ret a g = Ok (b, g') -> b = a /\ g' = g.
Proof. unfold ret. intros H. injection H as -> ->. split; reflexivity. Qed.

Lemma bind_raise {A B} (c : M A) (k : A -> M B) g e :
  c g = Raise e -> bind c k g = Raise e.
Proof. unfold bind. intros ->. reflexivity. Qed.

Lemma bind_step {A B} (c : M A) (k : A -> M B) g a g1 :
  c g = Ok (a, g1) -> bind c k g = k a g1.
Proof. unfold bind. intros ->. reflexivity. Qed.

(** Takes a hypothesis [c g = Ok _] apart, bind by bind. *)
Ltac run_ok H :=
  repeat match type of H with
  | bind _ _ _ = Ok _ =>
      let a := fresh "a" in
      let g := fresh "g" in
      let Hc := fresh "Hc" in
      apply bind_ok in H; destruct H as (a & g & Hc & H)
  end.

(** ** Lists *)

Section Lists.
Context {A : Type}.

Lemma drop_nth_length (i : nat) (l : list A) :
  i < length l -> length (drop_nth i l) = length l - 1.
Proof.
  revert i. induction l as [|x l IH]; intros [|i] H; simpl in *; try lia.
  rewrite IH by lia. lia.
Qed.

Lemma drop_nth_In (i : nat) (l : list A) (x : A) :
  In x (drop_nth i l) -> In x l.
Proof.
  revert i. induction l as [|y l IH]; intros [|i]; simpl; auto.
  intros [->|H]; [left; reflexivity|right; eauto].
Qed.

Lemma drop_nth_NoDup (i : nat) (l : list A) :
  NoDup l -> NoDup (drop_nth i l).
Proof.
  revert i. induction l as [|y l IH]; intros [|i] H; simpl; auto.
  - inversion H; assumption.
  - inversion H as [|? ? Hy Hl]; subst. constructor; auto.
    intros Hin. apply Hy. eapply drop_nth_In; eassumption.
Qed.

Lemma drop_nth_fresh (i : nat) (l : list A) (d : A) :
  NoDup l -> i < length l -> ~ In (nth i l d) (drop_nth i l).
Proof.
  revert i. induction l as [|y l IH]; intros [|i] H Hi; simpl in *; try lia.
  - inversion H; assumption.
  - inversion H as [|? ? Hy Hl]; subst. intros [Heq|Hin].
    + apply Hy. rewrite Heq. apply nth_In. lia.
    + revert Hin. apply IH; [assumption|lia].
Qed.

Lemma setitem_length (l : list A) (i : nat) (x : A) (l' : list A) :
  setitem l i x = Ok l' -> length l' = length l.
Proof.
  revert i l'. induction l as [|y l IH]; intros [|i] l' H; simpl in H;
    try discriminate.
  - injection H as <-. reflexivity.
  - destruct (setitem l i x) as [l1|] eqn:E; [|discriminate].
    injection H as <-. simpl. f_equal. eapply IH; eassumption.
Qed.

Lemma setitem_in_range (l : list A) (i : nat) (x : A) :
  i < length l -> exists l', setitem l i x = Ok l'.
Proof.
  revert i. induction l as [|y l IH]; intros [|i] H; simpl in *; try lia.
  - eexists; reflexivity.
  - destruct (IH i) as [l' ->]; [lia|]. eexists; reflexivity.
Qed.

Lemma setitem_head (l : list A) (i : nat) (x : A) (l' : list A) :
  0 < i -> setitem l i x = Ok l' -> nth_error l' 0 = nth_error l 0.
Proof.
  destruct l as [|y l]; destruct i as [|i]; simpl; try lia; try discriminate.
  intros _. destruct (setitem l i x); [|discriminate].
  intros H. injection H as <-. reflexivity.
Qed.

Lemma getitem_in_range (l : list A) (i : nat) :
  i < length l -> exists x, getitem l i = Ok x.
Proof.
  intros H. unfold getitem.
  destruct (nth_error l i) eqn:E; [eexists; reflexivity|].
  apply nth_error_None in E. lia.
Qed.
End Lists.

(** ** random.sample *)

Section Sample.
Context {A : Type}.

Lemma sample_loop_length (k : nat) : forall (pool xs : list A) g g',
  sample_loop k pool g = Ok (xs, g') -> length xs = k.
Proof.
  induction k as [|k IH]; intros pool xs g g' H; simpl in H.
  - apply ret_ok in H. destruct H as [-> _]. reflexivity.
  - destruct pool as [|d pool]; [discriminate|].
    run_ok H. apply ret_ok in H. destruct H as [-> _].
    simpl. f_equal. eapply IH; eassumption.
Qed.

Lemma sample_loop_In (k : nat) : forall (pool xs : list A) g g',
  sample_loop k pool g = Ok (xs, g') -> forall x, In x xs -> In x pool.
Proof.
  induction k as [|k IH]; intros pool xs g g' H x Hx; simpl in H.
  - apply ret_ok in H. destruct H as [-> _]. destruct Hx.
  - destruct pool as [|d pool]; [discriminate|].
    run_ok H. apply ret_ok in H. destruct H as [-> _].
    destruct Hx as [<-|Hx].
    + apply nth_In. apply Nat.mod_upper_bound. discriminate.
    + eapply drop_nth_In. eapply IH; eassumption.
Qed.

Lemma sample_loop_NoDup (k : nat) : forall (pool xs : list A) g g',
  NoDup pool -> sample_loop k pool g = Ok (xs, g') -> NoDup xs.
Proof.
  induction k as [|k IH]; intros pool xs g g' Hnd H; simpl in H.
  - apply ret_ok in H. destruct H as [-> _]. constructor.
  - destruct pool as [|d pool]; [discriminate|].
    run_ok H. apply ret_ok in H. destruct H as [-> _].
    constructor.
    + intros Hin. eapply sample_loop_In in Hin; [|eassumption].
      revert Hin. apply drop_nth_fresh; [assumption|].
      apply Nat.mod_upper_bound. discriminate.
    + eapply IH; [|eassumption]. apply drop_nth_NoDup. assumption.
Qed.

Lemma sample_loop_total (k : nat) : forall (pool : list A) g,
  k <= length pool -> exists xs g', sample_loop k pool g = Ok (xs, g').
Proof.
  induction k as [|k IH]; intros pool g Hk; simpl.
  - eexists _, _; reflexivity.
  - destruct pool as [|d pool]; [simpl in Hk; lia|].
    unfold bind at 1. unfold next at 1.
    set (i := tape g (cursor g) mod length (d :: pool)).
    assert (Hi : i < length (d :: pool))
      by (apply Nat.mod_upper_bound; discriminate).
    destruct (IH (drop_nth i (d :: pool))
                 (mkRng (tape g) (S (cursor g)))) as (xs & g' & E).
    { rewrite drop_nth_length by assumption. simpl in *. lia. }
    unfold bind. rewrite E. eexists _, _; reflexivity.
Qed.

Lemma sample_ok (population xs : list A) (k : nat) g g' :
  sample population k g = Ok (xs, g') ->
  length xs = k /\ (forall x, In x xs -> In x population) /\
  (NoDup population -> NoDup xs).
Proof.
  unfold sample. destruct (length population <? k); [discriminate|].
  intros H. split; [|split].
  - eapply sample_loop_length; eassumption.
  - eapply sample_loop_In; eassumption.
  - intros Hnd. eapply sample_loop_NoDup; eassumption.
Qed.

Lemma sample_total (population : list A) (k : nat) g :
  k <= length population ->
  exists xs g', sample population k g = Ok (xs, g').
Proof.
  intros Hk. unfold sample.
  destruct (Nat.ltb_spec (length population) k); [lia|].
  apply sample_loop_total. assumption.
Qed.

Lemma sample_too_large (population : list A) (k : nat) g :
  length population < k ->
  sample population k g = Raise SampleLargerThanPopulation.
Proof.
  intros Hk. unfold sample.
  destruct (Nat.ltb_spec (length population) k); [reflexivity|lia].
Qed.
(** What a sample returns in terms of the cells of the tape it reads. *)
Lemma sample_loop_reads (k : nat) : forall (pool : list A) t c,
  k <= length pool ->
  sample_loop k pool (mkRng t c)
  = Ok (taken (map t (seq c k)) pool, mkRng t (c + k)).
Proof.
  induction k as [|k IH]; intros pool t c Hk; simpl.
  - unfold ret. rewrite Nat.add_0_r. reflexivity.
  - destruct pool as [|d pool]; [simpl in Hk; lia|].
    unfold bind at 1, next. cbn [tape cursor].
    unfold bind. rewrite IH.
    + unfold ret. rewrite Nat.add_succ_r. reflexivity.
    + rewrite drop_nth_length
        by (apply Nat.mod_upper_bound; discriminate).
      simpl in *. lia.
Qed.

Lemma tape_of_draws (draws front : list nat) :
  map (fun i => nth i (front ++ draws) 0) (seq (length front) (length draws))
  = draws.
Proof.
  revert front. induction draws as [|r draws IH]; intros front; simpl;
    [reflexivity|].
  rewrite app_nth2, Nat.sub_diag by lia. simpl. f_equal.
  replace (S (length front)) with (length (front ++ [r])%list)
    by (rewrite length_app; simpl; lia).
  rewrite <- (IH (front ++ [r])%list) at 2. apply map_ext. intros i.
  rewrite <- app_assoc. reflexivity.
Qed.

(** Every choice of positions is the choice of some tape: the one that
    holds the positions. *)
Lemma sample_realises (population : list A) (draws : list nat) :
  length draws <= length population ->
  sample population (length draws) (rng_of draws)
  = Ok (taken draws population, mkRng (tape (rng_of draws)) (length draws)).
Proof.
  intros H. unfold sample.
  destruct (Nat.ltb_spec (length population) (length draws)); [lia|].
  unfold rng_of. rewrite sample_loop_reads by assumption.
  pose proof (tape_of_draws draws []) as T. simpl in T.
  cbn [tape]. rewrite T. reflexivity.
Qed.
End Sample.

(** ** add_noise *)

Lemma string_of_list_ascii_length (l : list ascii) :
  String.length (string_of_list_ascii l) = length l.
Proof. induction l as [|c l IH]; simpl; [reflexivity|f_equal; exact IH]. Qed.

Lemma list_ascii_of_string_length (s : string) :
  length (list_ascii_of_string s) = String.length s.
Proof. induction s as [|c s IH]; simpl; [reflexivity|f_equal; exact IH]. Qed.

Lemma get_string_of_list_ascii (l : list ascii) :
  String.get 0 (string_of_list_ascii l) = nth_error l 0.
Proof. destruct l; reflexivity. Qed.

Lemma get_list_ascii_of_string (s : string) :
  nth_error (list_ascii_of_string s) 0 = String.get 0 s.
Proof. destruct s; reflexivity. Qed.

Lemma range_In (a b x : nat) : In x (range a b) <-> a <= x < b.
Proof. unfold range. rewrite in_seq. lia. Qed.

Lemma range_length (a b : nat) : length (range a b) = b - a.
Proof. unfold range. apply length_seq. Qed.

Lemma randint_ok (a b k : nat) g g' :
  randint a b g = Ok (k, g') ->
  a <= k <= b /\ k = a + tape g (cursor g) mod S (b - a).
Proof.
  unfold randint. destruct (Nat.ltb_spec b a); [discriminate|].
  intros Hrun. run_ok Hrun. apply ret_ok in Hrun. destruct Hrun as [-> _].
  unfold next in Hc. injection Hc as <- _.
  pose proof (Nat.mod_upper_bound (tape g (cursor g)) (S (b - a))).
  split; [lia|reflexivity].
Qed.

Lemma randint_total (a b : nat) g :
  a <= b ->
  randint a b g
  = Ok (a + tape g (cursor g) mod S (b - a), mkRng (tape g) (S (cursor g))).
Proof.
  intros H. unfold randint. destruct (Nat.ltb_spec b a); [lia|]. reflexivity.
Qed.

Lemma substitute_length (positions replacements : list nat) :
  forall index sequence sequence',
    substitute index positions replacements sequence = Ok sequence' ->
    length sequence' = length sequence.
Proof.
  induction positions as [|p ps IH]; intros index l l' H; simpl in H.
  - injection H as <-. reflexivity.
  - destruct (getitem replacements index) as [source|]; [|discriminate].
    destruct (getitem l source) as [c|]; [|discriminate].
    destruct (setitem l p c) as [l1|] eqn:E; [|discriminate].
    apply IH in H. rewrite H. eapply setitem_length; eassumption.
Qed.

Lemma substitute_head (positions replacements : list nat) :
  forall index sequence sequence',
    (forall p, In p positions -> 0 < p) ->
    substitute index positions replacements sequence = Ok sequence' ->
    nth_error sequence' 0 = nth_error sequence 0.
Proof.
  induction positions as [|p ps IH]; intros index l l' Hpos H; simpl in H.
  - injection H as <-. reflexivity.
  - destruct (getitem replacements index) as [source|]; [|discriminate].
    destruct (getitem l source) as [c|]; [|discriminate].
    destruct (setitem l p c) as [l1|] eqn:E; [|discriminate].
    apply IH in H; [|intros q Hq; apply Hpos; right; exact Hq].
    rewrite H. eapply setitem_head; [|eassumption].
    apply Hpos. left. reflexivity.
Qed.

Lemma substitute_total (positions replacements : list nat) :
  forall index sequence,
    (forall p, In p positions -> p < length sequence) ->
    (forall r, In r replacements -> r < length sequence) ->
    index + length positions <= length replacements ->
    exists sequence',
      substitute index positions replacements sequence = Ok sequence'.
Proof.
  induction positions as [|p ps IH]; intros index l Hp Hr Hlen; simpl.
  - eexists; reflexivity.
  - simpl in Hlen.
    destruct (getitem_in_range replacements index) as [source E1]; [lia|].
    rewrite E1.
    assert (Hs : source < length l).
    { apply Hr. unfold getitem in E1.
      destruct (nth_error replacements index) eqn:E; [|discriminate].
      injection E1 as <-. eapply nth_error_In; eassumption. }
    destruct (getitem_in_range l source Hs) as [c E2]. rewrite E2.
    destruct (setitem_in_range l p c) as [l1 E3].
    { apply Hp. left. reflexivity. }
    rewrite E3. pose proof (setitem_length _ _ _ _ E3) as El.
    apply IH.
    + intros q Hq. rewrite El. apply Hp. right. exact Hq.
    + intros r Hin. rewrite El. apply Hr. exact Hin.
    + lia.
Qed.

(** What a successful call of [add_noise] went through. *)
Lemma add_noise_ok (sequence : string) (max_substitutions : nat) g
    (sequence' : string) (substitutions : nat) g' :
  add_noise sequence max_substitutions g = Ok (sequence', substitutions, g') ->
  exists positions replacements buffer,
    1 <= substitutions <= max_substitutions /\
    length positions = substitutions /\
    (forall p, In p positions -> 1 <= p < String.length sequence) /\
    substitute 0 positions replacements (list_ascii_of_string sequence)
    = Ok buffer /\
    sequence' = string_of_list_ascii buffer.
Proof.
  unfold add_noise. intros H. run_ok H.
  apply ret_ok in H. destruct H as [H _]. injection H as -> ->.
  apply randint_ok in Hc. destruct Hc as [Hk _].
  apply sample_ok in Hc0. destruct Hc0 as (Hlen & Hin & _).
  apply lift_ok in Hc2. destruct Hc2 as [Hsub _].
  exists a0, a1, a2. split; [exact Hk|]. split; [exact Hlen|].
  split; [|split; [exact Hsub|reflexivity]].
  intros p Hp. apply Hin in Hp. apply range_In in Hp. exact Hp.
Qed.

(** C8: whenever [add_noise] returns, the string it returns is as long as
    the one it was given. *)
Theorem add_noise_length (sequence : string) (max_substitutions : nat) g
    (sequence' : string) (substitutions : nat) g' :
  add_noise sequence max_substitutions g = Ok (sequence', substitutions, g') ->
  String.length sequence' = String.length sequence.
Proof.
  intros H. apply add_noise_ok in H.
  destruct H as (ps & rs & buffer & _ & _ & _ & Hsub & ->).
  rewrite string_of_list_ascii_length.
  apply substitute_length in Hsub. rewrite Hsub.
  apply list_ascii_of_string_length.
Qed.

Lemma add_noise_length_witness :
  add_noise "ACGT" 3 (rng_of [2; 1; 1; 0; 2; 0; 0])
  = Ok ("ATTC", 3, mkRng (tape (rng_of [2; 1; 1; 0; 2; 0; 0])) 7) /\
  String.length "ATTC" = String.length "ACGT".
Proof.
  split; [reflexivity|].
  apply (add_noise_length "ACGT" 3 (rng_of [2; 1; 1; 0; 2; 0; 0]) "ATTC" 3
           (mkRng (tape (rng_of [2; 1; 1; 0; 2; 0; 0])) 7)).
  reflexivity.
Defined.

(** C9: whenever [add_noise] returns, the first character of the string it
    returns is the first character of the string it was given. *)
Theorem add_noise_first_char (sequence : string) (max_substitutions : nat) g
    (sequence' : string) (substitutions : nat) g' :
  add_noise sequence max_substitutions g = Ok (sequence', substitutions, g') ->
  String.get 0 sequence' = String.get 0 sequence.
Proof.
  intros H. apply add_noise_ok in H.
  destruct H as (ps & rs & buffer & _ & _ & Hpos & Hsub & ->).
  rewrite get_string_of_list_ascii.
  apply substitute_head in Hsub.
  - rewrite Hsub. apply get_list_ascii_of_string.
  - intros p Hp. apply Hpos in Hp. lia.
Qed.

Lemma add_noise_first_char_witness :
  add_noise "ACGT" 3 (rng_of [2; 1; 1; 0; 2; 0; 0])
  = Ok ("ATTC", 3, mkRng (tape (rng_of [2; 1; 1; 0; 2; 0; 0])) 7) /\
  String.get 0 "ATTC" = String.get 0 "ACGT".
Proof.
  split; [reflexivity|].
  apply (add_noise_first_char "ACGT" 3 (rng_of [2; 1; 1; 0; 2; 0; 0]) "ATTC" 3
           (mkRng (tape (rng_of [2; 1; 1; 0; 2; 0; 0])) 7)).
  reflexivity.
Defined.

Lemma add_noise_returns (sequence : string) (max_substitutions : nat) g :
  1 <= max_substitutions <= String.length sequence - 1 ->
  exists sequence' substitutions g',
    add_noise sequence max_substitutions g = Ok (sequence', substitutions, g').
Proof.
  intros Hm. unfold add_noise.
  rewrite (bind_step _ _ _ _ _ (randint_total 1 max_substitutions g
                                  (proj1 Hm))).
  set (k := 1 + tape g (cursor g) mod S (max_substitutions - 1)).
  assert (Hk : k <= length (range 1 (String.length sequence))).
  { rewrite range_length. subst k.
    pose proof (Nat.mod_upper_bound (tape g (cursor g))
                  (S (max_substitutions - 1))). lia. }
  destruct (sample_total (range 1 (String.length sequence)) k
              (mkRng (tape g) (S (cursor g))) Hk) as (ps & g1 & E1).
  rewrite (bind_step _ _ _ _ _ E1).
  destruct (sample_total (range 1 (String.length sequence)) k g1 Hk)
    as (rs & g2 & E2).
  rewrite (bind_step _ _ _ _ _ E2).
  apply sample_ok in E1. destruct E1 as (Lp & Ip & _).
  apply sample_ok in E2. destruct E2 as (Lr & Ir & _).
  destruct (substitute_total ps rs 0 (list_ascii_of_string sequence))
    as [buffer Es].
  - intros p Hp. apply Ip, range_In in Hp.
    rewrite list_ascii_of_string_length. lia.
  - intros r Hr. apply Ir, range_In in Hr.
    rewrite list_ascii_of_string_length. lia.
  - lia.
  - rewrite Es. eexists _, _, _. reflexivity.
Qed.

Lemma add_noise_raises (sequence : string) (max_substitutions : nat) g
    (substitutions : nat) g1 :
  randint 1 max_substitutions g = Ok (substitutions, g1) ->
  String.length sequence - 1 < substitutions ->
  add_noise sequence max_substitutions g = Raise SampleLargerThanPopulation.
Proof.
  intros Hdraw Hlt. unfold add_noise.
  rewrite (bind_step _ _ _ _ _ Hdraw).
  apply bind_raise. apply sample_too_large.
  rewrite range_length. exact Hlt.
Qed.

(** C10: for [max_substitutions >= 1], [add_noise] returns on every state
    of the random source exactly when
    [max_substitutions <= len(sequence) - 1]: under that bound it always
    returns; whenever the number of substitutions drawn exceeds
    [len(sequence) - 1] the call raises the ValueError of [random.sample];
    and beyond the bound some state of the random source draws such a
    number. *)
Theorem add_noise_total_iff (sequence : string) (max_substitutions : nat) :
  1 <= max_substitutions ->
  (max_substitutions <= String.length sequence - 1 ->
   forall g, exists sequence' substitutions g',
     add_noise sequence max_substitutions g
     = Ok (sequence', substitutions, g')) /\
  (forall g substitutions g1,
     randint 1 max_substitutions g = Ok (substitutions, g1) ->
     String.length sequence - 1 < substitutions ->
     add_noise sequence max_substitutions g
     = Raise SampleLargerThanPopulation) /\
  (String.length sequence - 1 < max_substitutions ->
   exists g,
     add_noise sequence max_substitutions g
     = Raise SampleLargerThanPopulation).
Proof.
  intros Hm. split; [|split].
  - intros Hle g. apply add_noise_returns. lia.
  - intros g k g1. apply add_noise_raises.
  - intros Hlt. exists (mkRng (fun _ => max_substitutions - 1) 0).
    eapply add_noise_raises.
    + apply randint_total. exact Hm.
    + cbn [tape cursor].
      replace (S (max_substitutions - 1)) with max_substitutions by lia.
      rewrite Nat.mod_small by lia. lia.
Qed.

Lemma add_noise_total_iff_witness :
  1 <= 4 /\
  add_noise "ACGT" 4 (rng_of [3]) = Raise SampleLargerThanPopulation.
Proof.
  assert (H : 1 <= 4) by lia.
  split; [exact H|].
  destruct (add_noise_total_iff "ACGT" 4 H) as (_ & Hraise & _).
  apply (Hraise (rng_of [3]) 4 (mkRng (tape (rng_of [3])) 1)).
  - reflexivity.
  - simpl. lia.
Defined.

(** ** pick_otus_randomly *)

Lemma mem_In (x : string) (l : list string) : mem x l = true <-> In x l.
Proof.
  unfold mem. rewrite existsb_exists. split.
  - intros (y & Hy & E). apply String.eqb_eq in E. subst. exact Hy.
  - intros H. exists x. split; [exact H|apply String.eqb_refl].
Qed.

Lemma mem_false (x : string) (l : list string) :
  mem x l = false <-> ~ In x l.
Proof.
  rewrite <- mem_In. destruct (mem x l); split; congruence.
Qed.

Lemma otus_fold_NoDup (msa : MSA) (seqs : list ref) : forall acc,
  NoDup acc ->
  NoDup (fold_left (fun acc seq => set_add string_dec (otu_of msa seq) acc)
                   seqs acc).
Proof.
  induction seqs as [|seq seqs IH]; intros acc H; simpl; [exact H|].
  apply IH. apply set_add_nodup. exact H.
Qed.

Lemma otus_fold_In (msa : MSA) (seqs : list ref) : forall acc o,
  In o (fold_left (fun acc seq => set_add string_dec (otu_of msa seq) acc)
                  seqs acc)
  <-> In o acc \/ exists seq, In seq seqs /\ otu_of msa seq = o.
Proof.
  induction seqs as [|seq seqs IH]; intros acc o; simpl.
  - split; [auto|]. intros [H|(s & [] & _)]. exact H.
  - rewrite IH. unfold set_In. rewrite set_add_iff. split.
    + intros [[->|H]|(s & Hs & E)]; eauto.
    + intros [H|(s & [->|Hs] & E)]; eauto.
Qed.

Lemma otus_NoDup (msa : MSA) : NoDup (otus msa).
Proof. apply otus_fold_NoDup. constructor. Qed.

(** The OTUs of an alignment are those of its sequences. *)
Lemma otus_In (msa : MSA) (o : string) :
  In o (otus msa) <-> exists seq, In seq (sequences msa) /\ otu_of msa seq = o.
Proof.
  unfold otus. rewrite otus_fold_In. split; [|auto].
  intros [[]|H]. exact H.
Qed.

Lemma set_remove_filter (x : string) (l : list string) :
  NoDup l ->
  set_remove string_dec x l = filter (fun o => negb (String.eqb o x)) l.
Proof.
  induction l as [|y l IH]; intros Hnd; simpl; [reflexivity|].
  inversion Hnd as [|? ? Hy Hl]; subst.
  destruct (string_dec x y) as [->|Hne].
  - rewrite String.eqb_refl. simpl. symmetry.
    apply forallb_filter_id. apply forallb_forall. intros z Hz.
    destruct (String.eqb_spec z y) as [->|]; [contradiction|reflexivity].
  - destruct (String.eqb_spec y x) as [->|_]; [congruence|].
    simpl. f_equal. apply IH. exact Hl.
Qed.

Lemma filter_absent (x : string) (l : list string) :
  mem x l = false -> filter (fun o => negb (String.eqb o x)) l = l.
Proof.
  intros H. apply forallb_filter_id. apply forallb_forall. intros z Hz.
  destruct (String.eqb_spec z x) as [->|]; [|reflexivity].
  apply mem_false in H. contradiction.
Qed.

(** The loop that takes the excluded OTUs out of the set leaves the
    candidates. *)
Lemma exclude_loop (exclude : list string) : forall l,
  NoDup l ->
  fold_left (fun acc otu =>
               if mem otu acc then set_remove string_dec otu acc else acc)
            exclude l
  = filter (fun otu => negb (mem otu exclude)) l.
Proof.
  induction exclude as [|x exclude IH]; intros l Hnd; cbn [fold_left].
  - symmetry. apply forallb_filter_id. apply forallb_forall. reflexivity.
  - match goal with
    | |- fold_left _ _ ?acc = _ =>
        assert (E : acc = filter (fun o => negb (String.eqb o x)) l)
    end.
    { destruct (mem x l) eqn:Hx.
      - apply set_remove_filter. exact Hnd.
      - symmetry. apply filter_absent. exact Hx. }
    rewrite E, IH by (apply NoDup_filter; exact Hnd).
    clear. induction l as [|y l IHl]; simpl; [reflexivity|].
    destruct (String.eqb_spec y x) as [->|Hne]; simpl.
    + exact IHl.
    + destruct (mem y exclude); simpl; [exact IHl|f_equal; exact IHl].
Qed.

Lemma pick_otus_randomly_unfold (msa : MSA) (count : nat)
    (exclude : list string) :
  pick_otus_randomly msa count exclude
  = if length (candidates msa exclude) <? count then ret []
    else sample (candidates msa exclude) count.
Proof.
  unfold pick_otus_randomly, candidates.
  rewrite exclude_loop by apply otus_NoDup. reflexivity.
Qed.

(** C7: [pick_otus_randomly] returns the empty collection, without raising,
    when [count] exceeds the number of OTUs of the alignment that are not
    excluded; otherwise it returns [count] distinct OTUs of the alignment,
    none of them excluded. *)
Theorem pick_otus_randomly_spec (msa : MSA) (count : nat)
    (exclude : list string) g :
  (length (candidates msa exclude) < count ->
   pick_otus_randomly msa count exclude g = Ok ([], g)) /\
  (count <= length (candidates msa exclude) ->
   exists picked g',
     pick_otus_randomly msa count exclude g = Ok (picked, g') /\
     length picked = count /\ NoDup picked /\
     forall o, In o picked -> In o (otus msa) /\ ~ In o exclude).
Proof.
  rewrite pick_otus_randomly_unfold. split; intros H.
  - destruct (Nat.ltb_spec (length (candidates msa exclude)) count); [|lia].
    reflexivity.
  - destruct (Nat.ltb_spec (length (candidates msa exclude)) count); [lia|].
    destruct (sample_total (candidates msa exclude) count g H)
      as (picked & g' & E).
    exists picked, g'. split; [exact E|].
    apply sample_ok in E. destruct E as (Hlen & Hin & Hnd).
    split; [exact Hlen|]. split.
    + apply Hnd. apply NoDup_filter. apply otus_NoDup.
    + intros o Ho. apply Hin in Ho. unfold candidates in Ho.
      apply filter_In in Ho. destruct Ho as [Ho Hex].
      split; [exact Ho|]. apply mem_false.
      destruct (mem o exclude); [discriminate|reflexivity].
Qed.

(** ** Removing from the alignment's list *)

Lemma list_remove_In (x : ref) (l : list ref) :
  In x l -> exists l', list_remove x l = Ok l' /\ S (length l') = length l.
Proof.
  induction l as [|y l IH]; intros H; [destruct H|]. simpl.
  destruct (Nat.eqb_spec y x) as [->|Hne].
  - exists l. split; reflexivity.
  - destruct H as [H|H]; [contradiction|].
    destruct (IH H) as (l' & -> & Hlen). exists (y :: l').
    split; [reflexivity|]. simpl. f_equal. exact Hlen.
Qed.

Lemma list_remove_ok (x : ref) (l l' : list ref) :
  list_remove x l = Ok l' ->
  In x l /\ S (length l') = length l /\ incl l' l.
Proof.
  revert l'. induction l as [|y l IH]; intros l' H; simpl in H;
    [discriminate|].
  destruct (Nat.eqb_spec y x) as [->|Hne].
  - injection H as <-. split; [left; reflexivity|].
    split; [reflexivity|]. apply incl_tl, incl_refl.
  - destruct (list_remove x l) as [l1|]; [|discriminate].
    injection H as <-. destruct (IH l1 eq_refl) as (Hin & Hlen & Hincl).
    split; [right; exact Hin|]. split; [simpl; f_equal; exact Hlen|].
    intros z [<-|Hz]; [left; reflexivity|right; apply Hincl; exact Hz].
Qed.

Lemma list_remove_app (x : ref) (l l' t : list ref) :
  list_remove x l = Ok l' -> list_remove x (l ++ t)%list = Ok (l' ++ t)%list.
Proof.
  revert l'. induction l as [|y l IH]; intros l' H; simpl in *;
    [discriminate|].
  destruct (y =? x); [injection H as <-; reflexivity|].
  destruct (list_remove x l) as [l1|]; [|discriminate].
  injection H as <-. rewrite (IH l1 eq_refl). reflexivity.
Qed.

Lemma remove_sequence_ok (msa msa' : MSA) (seq : ref) :
  remove_sequence msa seq = Ok msa' ->
  store msa' = store msa /\ fresh msa' = fresh msa /\
  list_remove seq (sequences msa) = Ok (sequences msa').
Proof.
  unfold remove_sequence.
  destruct (list_remove seq (sequences msa)) as [l|]; [|discriminate].
  intros H. injection H as <-. repeat split.
Qed.

Lemma getitem_In {A} (l : list A) (i : nat) (x : A) :
  getitem l i = Ok x -> In x l.
Proof.
  unfold getitem. destruct (nth_error l i) eqn:E; [|discriminate].
  intros H. injection H as <-. eapply nth_error_In; eassumption.
Qed.

(** ** cross_contaminate *)



(** With likelihood 0.0 the receiver is spared by every draw but 0. *)
Lemma spared_zero (draw : nat) :
  draw < 100 -> spared 0 draw = negb (draw =? 0).
Proof.
  intros H.
  assert (E : forallb (fun d => Bool.eqb (spared 0 d) (negb (d =? 0)))
                      (seq 0 100) = true) by (vm_compute; reflexivity).
  rewrite forallb_forall in E. apply Bool.eqb_prop. apply E.
  apply in_seq. lia.
Qed.

(** One iteration of the loop of [cross_contaminate] at likelihood 0.0. *)
Lemma contaminate_receiver_zero (max_substitutions : nat)
    (st : contamination_state) (otu : string) (count : nat) g :
  contaminate_receiver 0 max_substitutions st otu count g
  = if count =? 0 then Ok (st, g)
    else if tape g (cursor g) mod 100 =? 0
         then contaminate st otu max_substitutions
                (mkRng (tape g) (S (cursor g)))
         else Ok (st, mkRng (tape g) (S (cursor g))).
Proof.
  unfold contaminate_receiver. destruct (count =? 0); [reflexivity|].
  unfold randrange, bind at 1, bind at 1, next, ret.
  rewrite spared_zero by (apply Nat.mod_upper_bound; discriminate).
  destruct (tape g (cursor g) mod 100 =? 0); reflexivity.
Qed.

(** C4: at likelihood 0.0 a receiver is contaminated when, and only when,
    [randrange(100)] draws 0.  On the alignment [two_taxa] with the
    receiver Homo and a random source that draws 0, [cross_contaminate]
    reports one contamination event and the alignment has changed: Homo@1
    is gone and a contaminated copy of Homo@2 has been added. *)
Theorem cross_contaminate_zero_likelihood_event :
  (forall max_substitutions st otu count g,
     contaminate_receiver 0 max_substitutions st otu count g
     = if count =? 0 then Ok (st, g)
       else if tape g (cursor g) mod 100 =? 0
            then contaminate st otu max_substitutions
                   (mkRng (tape g) (S (cursor g)))
            else Ok (st, mkRng (tape g) (S (cursor g)))) /\
  labels two_taxa = ["Homo@1"; "Homo@2"; "Mus@1"; "Mus@2"] /\
  contamination_report
    (cross_contaminate two_taxa ["Homo"] 0 2 (rng_of [0; 1; 0; 3; 2]))
  = Some (1, ["Homo@2"; "Mus@1"; "Mus@2"; "Homo@2_contaminated_Homo_1_subs"]).
Proof.
  split; [exact contaminate_receiver_zero|].
  split; [reflexivity|]. vm_compute. reflexivity.
Qed.

(** ** remove_seqs_from_otu *)

Lemma nth_error_after {A} (front rest : list A) :
  nth_error (front ++ rest)%list (length front) = nth_error rest 0.
Proof.
  rewrite nth_error_app2 by lia. rewrite Nat.sub_diag. reflexivity.
Qed.

Lemma list_remove_middle (x : ref) (front rest : list ref) :
  ~ In x front ->
  list_remove x (front ++ x :: rest)%list = Ok (front ++ rest)%list.
Proof.
  induction front as [|y front IH]; intros H; simpl.
  - rewrite Nat.eqb_refl. reflexivity.
  - destruct (Nat.eqb_spec y x) as [->|_]; [exfalso; apply H; left; reflexivity|].
    rewrite IH; [reflexivity|]. intros Hin. apply H. right. exact Hin.
Qed.

Lemma remove_seqs_loop_past_end (fuel index : nat) (otus : container)
    (msa : MSA) :
  length (sequences msa) <= index ->
  remove_seqs_loop fuel index otus msa = Ok msa.
Proof.
  intros H. destruct fuel as [|fuel]; simpl; [reflexivity|].
  apply nth_error_None in H. rewrite H. reflexivity.
Qed.

(** The loop never raises: the sequence it removes is in the list. *)
Lemma remove_seqs_loop_returns (otus : container) (fuel : nat) :
  forall index msa,
    exists msa', remove_seqs_loop fuel index otus msa = Ok msa' /\
                 store msa' = store msa.
Proof.
  induction fuel as [|fuel IH]; intros index msa; simpl.
  - exists msa. split; reflexivity.
  - destruct (nth_error (sequences msa) index) as [seq|] eqn:E;
      [|exists msa; split; reflexivity].
    destruct (contains otus (otu_of msa seq)); [|apply IH].
    apply nth_error_In in E.
    destruct (list_remove_In _ _ E) as (l' & El & _).
    unfold remove_sequence. rewrite El.
    destruct (IH (S index) (mkMSA (store msa) (fresh msa) l'))
      as (msa' & -> & Hs).
    exists msa'. split; [reflexivity|exact Hs].
Qed.

(** The iterations the loop goes through are as many as the list is long
    at most: more fuel than [remove_seqs_from_otu] gives changes
    nothing. *)
Lemma remove_seqs_loop_fuel (otus : container) (fuel : nat) :
  forall index msa extra,
    length (sequences msa) <= index + fuel ->
    remove_seqs_loop (fuel + extra) index otus msa
    = remove_seqs_loop fuel index otus msa.
Proof.
  induction fuel as [|fuel IH]; intros index msa extra H.
  - rewrite !remove_seqs_loop_past_end by lia. reflexivity.
  - simpl. destruct (nth_error (sequences msa) index) as [seq|] eqn:E;
      [|reflexivity].
    destruct (contains otus (otu_of msa seq)); [|apply IH; lia].
    unfold remove_sequence.
    destruct (list_remove seq (sequences msa)) as [l'|] eqn:El;
      [|reflexivity].
    apply IH. apply list_remove_ok in El. destruct El as (_ & Hlen & _).
    simpl. lia.
Qed.

(** With distinct objects in the list, what is before the index of the
    iterator stays in the list. *)
Lemma remove_seqs_loop_prefix (otus : container) (fuel : nat) :
  forall front rest msa msa',
    sequences msa = (front ++ rest)%list ->
    NoDup (sequences msa) ->
    remove_seqs_loop fuel (length front) otus msa = Ok msa' ->
    exists tail, sequences msa' = (front ++ tail)%list.
Proof.
  induction fuel as [|fuel IH]; intros front rest msa msa' Hseq Hnd H;
    simpl in H.
  - injection H as <-. exists rest. exact Hseq.
  - rewrite Hseq, nth_error_after in H.
    destruct rest as [|x rest]; simpl in H.
    + injection H as <-. exists []. exact Hseq.
    + assert (Hfront : length (front ++ [x]) = S (length front))
        by (rewrite length_app; simpl; lia).
      assert (Hsplit : (front ++ x :: rest = (front ++ [x]) ++ rest)%list)
        by (rewrite <- app_assoc; reflexivity).
      destruct (contains otus (otu_of msa x)).
      * rewrite Hseq in Hnd. unfold remove_sequence in H.
        rewrite Hseq, list_remove_middle in H
          by (intros Hin; apply (NoDup_remove_2 _ _ _ Hnd);
              apply in_or_app; left; exact Hin).
        apply NoDup_remove_1 in Hnd.
        destruct rest as [|y rest].
        -- rewrite remove_seqs_loop_past_end in H
             by (simpl; rewrite app_nil_r; lia).
           injection H as <-. exists []. reflexivity.
        -- assert (Hy : length (front ++ [y]) = S (length front))
             by (rewrite length_app; simpl; lia).
           rewrite <- Hy in H.
           destruct (IH (front ++ [y])%list rest
                       (mkMSA (store msa) (fresh msa)
                              (front ++ y :: rest)%list) msa')
             as [tail Ht].
           ++ simpl. rewrite <- app_assoc. reflexivity.
           ++ exact Hnd.
           ++ exact H.
           ++ exists (y :: tail). rewrite Ht, <- app_assoc. reflexivity.
      * rewrite <- Hfront in H.
        destruct (IH (front ++ [x])%list rest msa msa') as [tail Ht].
        -- rewrite Hseq. exact Hsplit.
        -- exact Hnd.
        -- exact H.
        -- exists (x :: tail). rewrite Ht, <- app_assoc. reflexivity.
Qed.

(** The sequence that follows the first one removed is stepped over. *)
Lemma remove_seqs_loop_steps_over (otus : container) (pre : list ref) :
  forall fuel front msa r1 r2 post,
    sequences msa = (front ++ pre ++ r1 :: r2 :: post)%list ->
    NoDup (sequences msa) ->
    length pre < fuel ->
    (forall r, In r pre -> contains otus (otu_of msa r) = false) ->
    contains otus (otu_of msa r1) = true ->
    exists msa',
      remove_seqs_loop fuel (length front) otus msa = Ok msa' /\
      store msa' = store msa /\ In r2 (sequences msa').
Proof.
  induction pre as [|p pre IH]; intros fuel front msa r1 r2 post Hseq Hnd Hf
    Hpre Hr1; (destruct fuel as [|fuel]; [simpl in Hf; lia|]).
  - simpl in Hseq. simpl. rewrite Hseq, nth_error_after. simpl.
    rewrite Hr1. unfold remove_sequence. rewrite Hseq in *.
    rewrite list_remove_middle
      by (intros Hin; apply (NoDup_remove_2 _ _ _ Hnd);
          apply in_or_app; left; exact Hin).
    apply NoDup_remove_1 in Hnd.
    destruct (remove_seqs_loop_returns otus fuel (S (length front))
                (mkMSA (store msa) (fresh msa) (front ++ r2 :: post)))
      as (msa' & E & Hs).
    exists msa'. split; [exact E|]. split; [exact Hs|].
    assert (Hy : length (front ++ [r2]) = S (length front))
      by (rewrite length_app; simpl; lia).
    rewrite <- Hy in E.
    destruct (remove_seqs_loop_prefix otus fuel (front ++ [r2])%list post
                (mkMSA (store msa) (fresh msa) (front ++ r2 :: post)%list)
                msa') as [tail Ht].
    + simpl. rewrite <- app_assoc. reflexivity.
    + exact Hnd.
    + exact E.
    + rewrite Ht. apply in_or_app. left. apply in_or_app. right.
      left. reflexivity.
  - simpl. rewrite Hseq, nth_error_after. simpl.
    rewrite (Hpre p) by (left; reflexivity).
    assert (Hp : length (front ++ [p]) = S (length front))
      by (rewrite length_app; simpl; lia).
    rewrite <- Hp. apply (IH fuel (front ++ [p])%list msa r1 r2 post).
    + rewrite Hseq, <- app_assoc. reflexivity.
    + exact Hnd.
    + simpl in Hf. lia.
    + intros r Hr. apply Hpre. right. exact Hr.
    + exact Hr1.
Qed.

(** C6: [remove_seqs_from_otu] does not remove every sequence of the donor
    OTUs.  When two sequences of donor OTUs follow each other in the
    alignment's list, the first being the first sequence of a donor in the
    list, removing the first makes the iterator step over the second, which
    is still in the alignment, with its donor OTU, when the function
    returns. *)
Theorem remove_seqs_from_otu_steps_over (msa : MSA) (donors : list string)
    (pre : list ref) (r1 r2 : ref) (post : list ref) :
  sequences msa = (pre ++ r1 :: r2 :: post)%list ->
  NoDup (sequences msa) ->
  (forall r, In r pre -> mem (otu_of msa r) donors = false) ->
  mem (otu_of msa r1) donors = true ->
  mem (otu_of msa r2) donors = true ->
  exists msa',
    remove_seqs_from_otu msa (Coll donors) = Ok msa' /\
    In r2 (sequences msa') /\ mem (otu_of msa' r2) donors = true.
Proof.
  intros Hseq Hnd Hpre Hr1 Hr2. unfold remove_seqs_from_otu.
  destruct (remove_seqs_loop_steps_over (Coll donors) pre
              (length (sequences msa)) [] msa r1 r2 post)
    as (msa' & E & Hs & Hin); try assumption.
  - rewrite Hseq, length_app. simpl. lia.
  - exists msa'. split; [exact E|]. split; [exact Hin|].
    unfold otu_of. rewrite Hs. exact Hr2.
Qed.

Lemma remove_seqs_from_otu_steps_over_witness :
  exists msa',
    remove_seqs_from_otu two_taxa (Coll ["Mus"]) = Ok msa' /\
    In 3 (sequences msa') /\ mem (otu_of msa' 3) ["Mus"] = true.
Proof.
  apply (remove_seqs_from_otu_steps_over two_taxa ["Mus"] [0; 1] 2 3 []).
  - reflexivity.
  - simpl. repeat constructor; simpl; intuition lia.
  - intros r [<-|[<-|[]]]; reflexivity.
  - reflexivity.
  - reflexivity.
Defined.

(** The whole of [replace_receiver_seqs] on [two_taxa] with the receiver
    Homo: the donor Mus keeps its second sequence in place, and the same
    object is appended again by the reassignment. *)
Lemma replace_receiver_seqs_two_taxa :
  swap_report (replace_receiver_seqs two_taxa ["Homo"] (rng_of []))
  = Some (1, ["Homo"],
          ["Homo@2"; "H@2_from_Mus"; "H@1_from_Mus"; "H@2_from_Mus"]).
Proof. vm_compute. reflexivity. Qed.

(** ** randomly_assign_seqs *)

Lemma length_append (s1 s2 : string) :
  String.length (s1 ++ s2) = String.length s1 + String.length s2.
Proof. induction s1 as [|c s1 IH]; simpl; [reflexivity|f_equal; exact IH]. Qed.

Lemma set_of_string_fold (chars : list ascii) : forall acc c,
  In c (fold_left (fun acc ch => set_add string_dec (String ch EmptyString) acc)
                  chars acc) ->
  In c acc \/ exists ch, In ch chars /\ c = String ch EmptyString.
Proof.
  induction chars as [|ch chars IH]; intros acc c H; simpl in H; [auto|].
  apply IH in H. destruct H as [H|(ch' & Hin & E)].
  - apply set_add_iff in H. destruct H as [->|H]; [|auto].
    right. exists ch. split; [left|]; reflexivity.
  - right. exists ch'. split; [right; exact Hin|exact E].
Qed.

(** The elements of [set(otu)] are single characters of the OTU. *)
Lemma set_of_string_In (s c : string) :
  In c (set_of_string s) ->
  exists ch, In ch (list_ascii_of_string s) /\ c = String ch EmptyString.
Proof.
  intros H. apply set_of_string_fold in H. destruct H as [[]|H]. exact H.
Qed.

(** What one iteration of [randomly_assign_seqs] does to the objects. *)
Lemma assign_store (msa : MSA) (seq : ref) (d : string) (r : ref) :
  store (add_sequence (set_description msa seq d) (Some seq) None None) r
  = if r =? seq
    then mkSequence (label_otu d) (label_identifier d) d
                    (sequence_data (store msa seq))
    else store msa r.
Proof.
  cbn. destruct (Nat.eqb_spec r seq) as [->|]; reflexivity.
Qed.

Lemma randomly_assign_seqs_frame (seqs : list ref) :
  forall msa otus g msa' g',
    randomly_assign_seqs msa seqs otus g = Ok (msa', g') ->
    forall r, ~ In r seqs -> store msa' r = store msa r.
Proof.
  induction seqs as [|seq seqs IH]; intros msa otus g msa' g' H r Hr;
    simpl in H.
  - apply ret_ok in H. destruct H as [-> _]. reflexivity.
  - run_ok H. rewrite (IH _ _ _ _ _ H r) by (intros F; apply Hr; right; exact F).
    rewrite assign_store.
    destruct (Nat.eqb_spec r seq) as [->|]; [|reflexivity].
    exfalso. apply Hr. left. reflexivity.
Qed.

(** Each sequence given to [randomly_assign_seqs] is labelled
    [otu@identifier_from_old], where [otu] is one of the elements of the
    set it is given. *)
Lemma randomly_assign_seqs_labels (seqs : list ref) :
  forall msa otus g msa' g',
    NoDup seqs ->
    randomly_assign_seqs msa seqs otus g = Ok (msa', g') ->
    forall seq, In seq seqs ->
      exists c, In c otus /\
        description (store msa' seq)
        = c ++ "@" ++ identifier (store msa seq) ++ "_from_" ++ otu_of msa seq.
Proof.
  induction seqs as [|s seqs IH]; intros msa otus g msa' g' Hnd H seq Hin;
    [destruct Hin|].
  inversion Hnd as [|? ? Hs Hnd']; subst. simpl in H. run_ok H.
  apply sample_ok in Hc. destruct Hc as (_ & Hpick & _).
  apply lift_ok in Hc0. destruct Hc0 as [Hget _].
  apply getitem_In, Hpick in Hget.
  destruct Hin as [->|Hin].
  - exists a0. split; [exact Hget|].
    rewrite (randomly_assign_seqs_frame _ _ _ _ _ _ H seq Hs).
    rewrite assign_store, Nat.eqb_refl. reflexivity.
  - destruct (IH _ _ _ _ _ Hnd' H seq Hin) as (c & Hc & E).
    exists c. split; [exact Hc|]. rewrite E. unfold otu_of.
    rewrite assign_store.
    destruct (Nat.eqb_spec seq s) as [->|]; [contradiction|reflexivity].
Qed.

(** With [set(otu)] for the OTUs, as [replace_receiver_seqs] calls it, the
    label starts with one character of the receiver: it is not the
    receiver's label unless the receiver's name is one character long. *)
Lemma randomly_assign_seqs_one_character (seqs : list ref) (msa : MSA)
    (receiver : string) g (msa' : MSA) g' :
  NoDup seqs ->
  randomly_assign_seqs msa seqs (set_of_string receiver) g = Ok (msa', g') ->
  String.length receiver <> 1 ->
  forall seq, In seq seqs ->
    description (store msa' seq)
    <> receiver ++ "@" ++ identifier (store msa seq) ++ "_from_"
         ++ otu_of msa seq.
Proof.
  intros Hnd H Hlen seq Hin.
  destruct (randomly_assign_seqs_labels _ _ _ _ _ _ Hnd H seq Hin)
    as (c & Hc & E).
  apply set_of_string_In in Hc. destruct Hc as (ch & _ & ->).
  rewrite E. intros F. apply (f_equal String.length) in F.
  rewrite !length_append in F. simpl in F. lia.
Qed.

(** C1: on the alignment [one_donor] with the receiver Homo, the sequence
    Mus@1 is imported and inserted with the label [H@1_from_Mus], whose
    OTU part is one character of the receiver's name: [set(otu)] is the set
    of the characters of the string.  The label the receiver's name would
    give is [Homo@1_from_Mus]. *)
Theorem replace_receiver_seqs_label_one_character :
  labels one_donor = ["Homo@1"; "Homo@2"; "Mus@1"] /\
  swap_report (replace_receiver_seqs one_donor ["Homo"] (rng_of []))
  = Some (1, ["Homo"], ["Homo@2"; "H@1_from_Mus"]) /\
  swap_report (replace_receiver_seqs one_donor ["Homo"] (rng_of [1; 0; 2]))
  = Some (1, ["Homo"], ["Homo@1"; "m@1_from_Mus"]).
Proof. repeat split; vm_compute; reflexivity. Qed.

(** ** get_seqs_from_otus *)

Lemma get_seqs_fold_In (msa : MSA) (otus : container) (seqs : list ref) :
  forall acc r,
    In r (fold_left (fun acc seq =>
                       if contains otus (otu_of msa seq)
                       then set_add Nat.eq_dec seq acc else acc) seqs acc)
    <-> In r acc \/ (In r seqs /\ contains otus (otu_of msa r) = true).
Proof.
  induction seqs as [|s seqs IH]; intros acc r; simpl.
  - split; [auto|]. intros [H|[[] _]]. exact H.
  - rewrite IH. destruct (contains otus (otu_of msa s)) eqn:E.
    + rewrite set_add_iff. split.
      * intros [[->|H]|[H1 H2]]; auto.
      * intros [H|[[->|H1] H2]]; auto.
    + split.
      * intros [H|[H1 H2]]; auto.
      * intros [H|[[->|H1] H2]]; auto. congruence.
Qed.

Lemma get_seqs_fold_NoDup (msa : MSA) (otus : container) (seqs : list ref) :
  forall acc,
    NoDup acc ->
    NoDup (fold_left (fun acc seq =>
                        if contains otus (otu_of msa seq)
                        then set_add Nat.eq_dec seq acc else acc) seqs acc).
Proof.
  induction seqs as [|s seqs IH]; intros acc H; simpl; [exact H|].
  apply IH. destruct (contains otus (otu_of msa s)); [|exact H].
  apply set_add_nodup. exact H.
Qed.

(** The sequences collected are those of the alignment whose OTU is [in]
    the argument, each once. *)
Lemma get_seqs_from_otus_In (msa : MSA) (otus : container) (r : ref) :
  In r (get_seqs_from_otus msa otus)
  <-> In r (sequences msa) /\ contains otus (otu_of msa r) = true.
Proof.
  unfold get_seqs_from_otus. rewrite get_seqs_fold_In. split; [|auto].
  intros [[]|H]. exact H.
Qed.

Lemma get_seqs_from_otus_NoDup (msa : MSA) (otus : container) :
  NoDup (get_seqs_from_otus msa otus).
Proof. apply get_seqs_fold_NoDup. constructor. Qed.

Lemma get_seqs_from_otus_none (msa : MSA) :
  get_seqs_from_otus msa (Coll []) = [].
Proof.
  destruct (get_seqs_from_otus msa (Coll [])) as [|r l] eqn:E; [reflexivity|].
  assert (H : In r (get_seqs_from_otus msa (Coll [])))
    by (rewrite E; left; reflexivity).
  apply get_seqs_from_otus_In in H. destruct H as [_ H]. discriminate H.
Qed.

(** ** The stages of a swap *)

Lemma list_remove_other (x y : ref) (l l' : list ref) :
  list_remove x l = Ok l' -> y <> x -> In y l -> In y l'.
Proof.
  revert l'. induction l as [|z l IH]; intros l' H Hne Hin; simpl in H;
    [discriminate|].
  destruct (Nat.eqb_spec z x) as [->|Hz].
  - injection H as <-. destruct Hin as [->|Hin]; [contradiction|exact Hin].
  - destruct (list_remove x l) as [l1|]; [|discriminate].
    injection H as <-. destruct Hin as [->|Hin]; [left; reflexivity|].
    right. apply (IH l1 eq_refl Hne Hin).
Qed.

Lemma remove_each_ok (chosen : list ref) : forall msa msa',
  remove_each msa chosen = Ok msa' ->
  store msa' = store msa /\ fresh msa' = fresh msa /\
  incl (sequences msa') (sequences msa) /\
  length (sequences msa') + length chosen = length (sequences msa).
Proof.
  induction chosen as [|seq chosen IH]; intros msa msa' H; simpl in H.
  - injection H as <-. repeat split; [apply incl_refl|simpl; lia].
  - destruct (remove_sequence msa seq) as [msa1|] eqn:E; [|discriminate].
    apply remove_sequence_ok in E. destruct E as (Hs & Hf & Hl).
    apply list_remove_ok in Hl. destruct Hl as (_ & Hlen & Hincl).
    destruct (IH _ _ H) as (Hs' & Hf' & Hincl' & Hlen').
    repeat split; try congruence.
    + intros z Hz. apply Hincl, Hincl', Hz.
    + simpl. lia.
Qed.

Lemma remove_each_total (chosen : list ref) : forall msa,
  NoDup chosen -> incl chosen (sequences msa) ->
  exists msa', remove_each msa chosen = Ok msa'.
Proof.
  induction chosen as [|seq chosen IH]; intros msa Hnd Hincl; simpl.
  - exists msa. reflexivity.
  - inversion Hnd as [|? ? Hseq Hnd']; subst.
    destruct (list_remove_In seq (sequences msa)) as (l' & El & _).
    { apply Hincl. left. reflexivity. }
    unfold remove_sequence. rewrite El. apply IH; [exact Hnd'|].
    intros y Hy. simpl. apply (list_remove_other _ _ _ _ El).
    + intros ->. contradiction.
    + apply Hincl. right. exact Hy.
Qed.

(** The first stage removes [swap_count] sequences and touches no
    object. *)
Lemma remove_old_ok (msa : MSA) (otu : string) (swap_count : nat) g
    (msa' : MSA) g' :
  remove_old msa otu swap_count g = Ok (msa', g') ->
  store msa' = store msa /\ incl (sequences msa') (sequences msa) /\
  length (sequences msa') + swap_count = length (sequences msa).
Proof.
  unfold remove_old. intros H. run_ok H.
  apply lift_ok in H. destruct H as [H _].
  apply sample_ok in Hc. destruct Hc as (Hlen & _ & _).
  apply remove_each_ok in H. destruct H as (Hs & _ & Hincl & Hl).
  split; [exact Hs|]. split; [exact Hincl|]. lia.
Qed.

Lemma remove_old_total (msa : MSA) (otu : string) (swap_count : nat) g :
  swap_count <= length (get_seqs_from_otus msa (Str otu)) ->
  exists msa' g', remove_old msa otu swap_count g = Ok (msa', g').
Proof.
  intros Hk. unfold remove_old.
  destruct (sample_total _ _ g Hk) as (chosen & g' & E).
  rewrite (bind_step _ _ _ _ _ E).
  apply sample_ok in E. destruct E as (_ & Hin & Hnd).
  destruct (remove_each_total chosen msa) as [msa' E'].
  - apply Hnd, get_seqs_from_otus_NoDup.
  - intros r Hr. apply Hin, get_seqs_from_otus_In in Hr. apply Hr.
  - exists msa', g'. unfold lift. rewrite E'. reflexivity.
Qed.

Lemma remove_old_raises (msa : MSA) (otu : string) (swap_count : nat) g :
  length (get_seqs_from_otus msa (Str otu)) < swap_count ->
  remove_old msa otu swap_count g = Raise SampleLargerThanPopulation.
Proof.
  intros H. unfold remove_old. apply bind_raise, sample_too_large, H.
Qed.

Lemma remove_seqs_from_otu_none (msa : MSA) :
  remove_seqs_from_otu msa (Coll []) = Ok msa.
Proof.
  unfold remove_seqs_from_otu.
  generalize (length (sequences msa)) as fuel. generalize 0 as index.
  intros index fuel. revert index.
  induction fuel as [|fuel IH]; intros index; simpl; [reflexivity|].
  destruct (nth_error (sequences msa) index); [apply IH|reflexivity].
Qed.

(** Without candidates the second stage does nothing. *)
Lemma assign_new_no_donor (msa : MSA) (otu : string) (swap_count : nat)
    (receivers : list string) g :
  length (candidates msa receivers) < swap_count ->
  assign_new msa otu swap_count receivers g = Ok (msa, g).
Proof.
  intros H. unfold assign_new.
  rewrite pick_otus_randomly_unfold.
  destruct (Nat.ltb_spec (length (candidates msa receivers)) swap_count);
    [|lia].
  unfold bind at 1, ret. rewrite get_seqs_from_otus_none.
  unfold bind, lift. rewrite remove_seqs_from_otu_none. reflexivity.
Qed.

(** ** replace_receiver_seqs *)

Lemma cumulative_surplus_app (d1 d2 : dict) :
  cumulative_surplus (d1 ++ d2)%list
  = cumulative_surplus d1 + cumulative_surplus d2.
Proof.
  induction d1 as [|[o c] d1 IH]; simpl; [reflexivity|]. rewrite IH. lia.
Qed.

Lemma swap_receiver_count (receivers : list string) (st : swap_state)
    (otu : string) (count : nat) g (st' : swap_state) g' :
  swap_receiver receivers st otu count g = Ok (st', g') ->
  swap_count st' = swap_count st + cumulative_surplus [(otu, count)].
Proof.
  unfold swap_receiver. simpl.
  destruct (Nat.leb_spec count 1) as [Hc|Hc]; intros H.
  - apply ret_ok in H. destruct H as [-> _].
    destruct (Nat.ltb_spec 1 count); lia.
  - run_ok H. apply ret_ok in H. destruct H as [-> _]. simpl.
    destruct (Nat.ltb_spec 1 count); lia.
Qed.

(** After the loop has gone through some receivers, [swap_count] is their
    cumulative surplus. *)
Lemma swap_loop_count (receivers : list string) (processed : dict) :
  forall st g st' g',
    swap_loop receivers processed st g = Ok (st', g') ->
    swap_count st' = swap_count st + cumulative_surplus processed.
Proof.
  induction processed as [|[o c] processed IH]; intros st g st' g' H.
  - apply ret_ok in H. destruct H as [-> _]. simpl. lia.
  - cbn [swap_loop] in H. run_ok H.
    apply swap_receiver_count in Hc. apply IH in H.
    change ((o, c) :: processed) with ([(o, c)] ++ processed)%list.
    rewrite cumulative_surplus_app. lia.
Qed.

(** On [two_receivers] the second receiver, which has two sequences, loses
    both of them, and two donors are picked for it. *)
Lemma replace_receiver_seqs_two_receivers :
  labels two_receivers
  = ["A@1"; "A@2"; "B@1"; "B@2"; "C@1"; "D@1"; "E@1"] /\
  swap_report (replace_receiver_seqs two_receivers ["A"; "B"] (rng_of []))
  = Some (2, ["A"; "B"],
          ["A@2"; "B@1_from_E"; "A@1_from_C"; "B@1_from_D"; "B@1_from_E"]).
Proof. split; vm_compute; reflexivity. Qed.

Lemma candidates_none (msa : MSA) (exclude : list string) :
  (forall r, In r (sequences msa) -> mem (otu_of msa r) exclude = true) ->
  candidates msa exclude = [].
Proof.
  intros H. destruct (candidates msa exclude) as [|o l] eqn:E; [reflexivity|].
  assert (Ho : In o (candidates msa exclude)) by (rewrite E; left; reflexivity).
  unfold candidates in Ho. apply filter_In in Ho. destruct Ho as [Ho Hex].
  apply otus_In in Ho. destruct Ho as (r & Hr & <-).
  rewrite (H r Hr) in Hex. discriminate Hex.
Qed.

(** The first iteration on [three_and_two] returns for every state of the
    random source, with two of the three sequences of A removed and
    nothing imported, as there is no OTU besides the receivers. *)
Lemma three_and_two_first (g : Rng) :
  exists msa1 g1,
    swap_receiver ["A"; "B"] (mkSwap three_and_two 0 (empty_set string))
      "A" 3 g
    = Ok (mkSwap msa1 2 ["A"], g1) /\
    store msa1 = store three_and_two /\
    incl (sequences msa1) (sequences three_and_two).
Proof.
  destruct (remove_old_total three_and_two "A" 2 g) as (msa1 & g1 & E).
  { vm_compute. lia. }
  exists msa1, g1. pose proof (remove_old_ok _ _ _ _ _ _ E) as (Hs & Hi & _).
  split; [|split; assumption].
  unfold swap_receiver. cbn [Nat.leb swap_count sw_msa Nat.add Nat.sub].
  rewrite (bind_step _ _ _ _ _ E).
  assert (N : length (candidates msa1 ["A"; "B"]) < 2).
  { rewrite candidates_none; [simpl; lia|].
    intros r Hr. unfold otu_of. rewrite Hs. apply Hi in Hr.
    assert (F : forallb (fun r => mem (otu_of three_and_two r) ["A"; "B"])
                        (sequences three_and_two) = true)
      by (vm_compute; reflexivity).
    rewrite forallb_forall in F. apply F, Hr. }
  rewrite (bind_step _ _ _ _ _ (assign_new_no_donor msa1 "A" 2 ["A"; "B"] g1 N)).
  reflexivity.
Qed.

(** C3: on the alignment [three_and_two], whose receivers A and B have
    three and two sequences, [replace_receiver_seqs] raises the ValueError
    of [random.sample] whatever the random source: when the loop reaches B,
    [swap_count] is 3 and B has two sequences to sample from. *)
Theorem replace_receiver_seqs_raises :
  labels three_and_two = ["A@1"; "A@2"; "A@3"; "B@1"; "B@2"] /\
  forall g,
    replace_receiver_seqs three_and_two ["A"; "B"] g
    = Raise SampleLargerThanPopulation.
Proof.
  split; [reflexivity|]. intros g. unfold replace_receiver_seqs.
  assert (D : receivers_in_msa three_and_two ["A"; "B"]
              = [("A", 3); ("B", 2)]) by (vm_compute; reflexivity).
  rewrite D. cbn [swap_loop].
  destruct (three_and_two_first g) as (msa1 & g1 & E & Hs & Hi).
  rewrite (bind_step _ _ _ _ _ E).
  apply bind_raise. unfold swap_receiver.
  cbn [Nat.leb swap_count sw_msa Nat.add Nat.sub].
  apply bind_raise. apply remove_old_raises.
  assert (L : length (get_seqs_from_otus msa1 (Str "B")) <= length [3; 4]).
  { apply NoDup_incl_length; [apply get_seqs_from_otus_NoDup|].
    intros r Hr. apply get_seqs_from_otus_In in Hr. destruct Hr as [Hr Hc].
    unfold otu_of in Hc. rewrite Hs in Hc. apply Hi in Hr.
    assert (F : filter (fun r => contains (Str "B") (otu_of three_and_two r))
                       (sequences three_and_two) = [3; 4])
      by (vm_compute; reflexivity).
    rewrite <- F. apply filter_In. split; assumption. }
  simpl in L. lia.
Qed.

(** * Further properties *)

(** ** receivers_in_msa *)

Lemma dict_incr_keys (k : string) (d : dict) :
  map fst (dict_incr k d) = map fst d.
Proof.
  induction d as [|[k' v] d IH]; simpl; [reflexivity|].
  destruct (String.eqb k' k); simpl; [reflexivity|f_equal; exact IH].
Qed.

Lemma dict_set_keys (k : string) (v : nat) (d : dict) :
  map fst (dict_set k v d)
  = if mem k (map fst d) then map fst d else (map fst d ++ [k])%list.
Proof.
  induction d as [|[k' v'] d IH]; simpl; [reflexivity|].
  rewrite (String.eqb_sym k k').
  destruct (String.eqb k' k); simpl; [reflexivity|].
  rewrite IH. destruct (mem k (map fst d)); reflexivity.
Qed.

Lemma init_keys (receivers : list string) : forall d,
  NoDup (map fst d) ->
  let d' := fold_left (fun d otu => dict_set otu 0 d) receivers d in
  NoDup (map fst d') /\
  (forall k, In k (map fst d') <-> In k (map fst d) \/ In k receivers) /\
  (NoDup (map fst d ++ receivers) ->
   map fst d' = (map fst d ++ receivers)%list).
Proof.
  induction receivers as [|r receivers IH]; intros d Hnd; cbn [fold_left].
  - split; [exact Hnd|]. split.
    + intros k. split; [auto|]. intros [H|[]]. exact H.
    + intros _. rewrite app_nil_r. reflexivity.
  - assert (Hset : NoDup (map fst (dict_set r 0 d))).
    { rewrite dict_set_keys. destruct (mem r (map fst d)) eqn:E;
        [exact Hnd|].
      apply NoDup_app; [exact Hnd|repeat constructor; intros []|].
      intros x Hx [<-|[]]. apply mem_false in E. contradiction. }
    destruct (IH (dict_set r 0 d) Hset) as (H1 & H2 & H3).
    split; [exact H1|]. split.
    + intros k. rewrite H2, dict_set_keys.
      destruct (mem r (map fst d)) eqn:E.
      * apply mem_In in E. simpl. split.
        -- intros [H|H]; auto.
        -- intros [H|[<-|H]]; auto.
      * rewrite in_app_iff. simpl. split.
        -- intros [[H|[<-|[]]]|H]; auto.
        -- intros [H|[<-|H]]; auto.
    + intros Hall. rewrite dict_set_keys in H3.
      assert (E : mem r (map fst d) = false).
      { apply mem_false. intros Hin.
        apply NoDup_remove_2 in Hall. apply Hall.
        apply in_or_app. left. exact Hin. }
      rewrite E in H3. rewrite H3; rewrite <- app_assoc; [reflexivity|].
      exact Hall.
Qed.

Lemma count_fold_keys (msa : MSA) (receivers : list string)
    (seqs : list ref) : forall d,
  map fst (fold_left (fun d seq =>
                        if mem (otu_of msa seq) receivers
                        then dict_incr (otu_of msa seq) d else d) seqs d)
  = map fst d.
Proof.
  induction seqs as [|seq seqs IH]; intros d; simpl; [reflexivity|].
  rewrite IH. destruct (mem (otu_of msa seq) receivers);
    [apply dict_incr_keys|reflexivity].
Qed.

Lemma receivers_in_msa_keys_NoDup (msa : MSA) (receivers : list string) :
  NoDup (map fst (receivers_in_msa msa receivers)).
Proof.
  unfold receivers_in_msa. rewrite count_fold_keys.
  apply (init_keys receivers []). constructor.
Qed.

Lemma receivers_in_msa_keys_In (msa : MSA) (receivers : list string)
    (k : string) :
  In k (map fst (receivers_in_msa msa receivers)) <-> In k receivers.
Proof.
  unfold receivers_in_msa. rewrite count_fold_keys.
  destruct (init_keys receivers [] (NoDup_nil _)) as (_ & H & _).
  rewrite H. simpl. tauto.
Qed.

(** X1: the keys of the dict that [receivers_in_msa] returns are the
    receivers, whether they have sequences in the alignment or not: each
    receiver is a key once, and for receivers given without repetition the
    keys are the receivers in the order given. *)
Theorem receivers_in_msa_keys (msa : MSA) (receivers : list string) :
  NoDup (map fst (receivers_in_msa msa receivers)) /\
  (forall k, In k (map fst (receivers_in_msa msa receivers))
             <-> In k receivers) /\
  (NoDup receivers -> map fst (receivers_in_msa msa receivers) = receivers).
Proof.
  split; [apply receivers_in_msa_keys_NoDup|].
  split; [apply receivers_in_msa_keys_In|].
  intros Hnd. unfold receivers_in_msa. rewrite count_fold_keys.
  destruct (init_keys receivers [] (NoDup_nil _)) as (_ & _ & H).
  apply H. exact Hnd.
Qed.

Lemma dict_get_set (k k' : string) (v : nat) (d : dict) :
  dict_get k (dict_set k' v d)
  = if String.eqb k' k then Some v else dict_get k d.
Proof.
  induction d as [|[k0 v0] d IH]; simpl.
  - reflexivity.
  - destruct (String.eqb_spec k0 k') as [->|Hne]; simpl.
    + destruct (String.eqb k' k); reflexivity.
    + rewrite IH. destruct (String.eqb_spec k0 k) as [->|];
        [|reflexivity].
      destruct (String.eqb_spec k' k) as [->|]; [contradiction|reflexivity].
Qed.

Lemma dict_get_incr (k k' : string) (d : dict) :
  dict_get k (dict_incr k' d)
  = if String.eqb k' k then option_map S (dict_get k d) else dict_get k d.
Proof.
  induction d as [|[k0 v0] d IH]; simpl.
  - destruct (String.eqb k' k); reflexivity.
  - destruct (String.eqb_spec k0 k') as [->|Hne]; simpl.
    + destruct (String.eqb k' k); reflexivity.
    + rewrite IH. destruct (String.eqb_spec k0 k) as [->|];
        [|reflexivity].
      destruct (String.eqb_spec k' k) as [->|]; [contradiction|reflexivity].
Qed.

Lemma dict_get_init (k : string) (receivers : list string) : forall d,
  dict_get k (fold_left (fun d otu => dict_set otu 0 d) receivers d)
  = if mem k receivers then Some 0 else dict_get k d.
Proof.
  induction receivers as [|r receivers IH]; intros d; cbn [fold_left].
  - reflexivity.
  - rewrite IH, dict_get_set. simpl. rewrite (String.eqb_sym k r).
    destruct (String.eqb r k); simpl; [|reflexivity].
    destruct (mem k receivers); reflexivity.
Qed.

Lemma dict_get_count (msa : MSA) (receivers : list string) (k : string)
    (seqs : list ref) : forall d,
  mem k receivers = true ->
  dict_get k (fold_left (fun d seq =>
                           if mem (otu_of msa seq) receivers
                           then dict_incr (otu_of msa seq) d else d) seqs d)
  = option_map
      (fun n => n + length (filter (fun seq => String.eqb (otu_of msa seq) k)
                                   seqs))
      (dict_get k d).
Proof.
  intros d Hk. revert d.
  induction seqs as [|seq seqs IH]; intros d; cbn [fold_left filter].
  - destruct (dict_get k d); simpl; [rewrite Nat.add_0_r|]; reflexivity.
  - rewrite IH. destruct (String.eqb_spec (otu_of msa seq) k) as [E|Hne].
    + rewrite E, Hk, dict_get_incr, String.eqb_refl.
      destruct (dict_get k d); simpl; [f_equal; lia|reflexivity].
    + destruct (mem (otu_of msa seq) receivers); [|reflexivity].
      rewrite dict_get_incr.
      destruct (String.eqb_spec (otu_of msa seq) k); [contradiction|].
      reflexivity.
Qed.

Lemma dict_get_absent (k : string) (d : dict) :
  ~ In k (map fst d) -> dict_get k d = None.
Proof.
  induction d as [|[k' v] d IH]; simpl; intros H; [reflexivity|].
  destruct (String.eqb_spec k' k) as [->|]; [exfalso; auto|].
  apply IH. intros Hin. apply H. right. exact Hin.
Qed.

Lemma receivers_in_msa_get (msa : MSA) (receivers : list string)
    (k : string) :
  dict_get k (receivers_in_msa msa receivers)
  = if mem k receivers then Some (count_otu msa k) else None.
Proof.
  destruct (mem k receivers) eqn:E.
  - unfold receivers_in_msa. rewrite dict_get_count by exact E.
    rewrite dict_get_init, E. reflexivity.
  - apply dict_get_absent. rewrite receivers_in_msa_keys_In.
    apply mem_false. exact E.
Qed.

Lemma dict_get_In (k : string) (v : nat) (d : dict) :
  NoDup (map fst d) -> In (k, v) d -> dict_get k d = Some v.
Proof.
  induction d as [|[k' v'] d IH]; simpl; intros Hnd Hin; [destruct Hin|].
  inversion Hnd as [|? ? Hk Hnd']; subst.
  destruct Hin as [E|Hin].
  - injection E as -> ->. rewrite String.eqb_refl. reflexivity.
  - destruct (String.eqb_spec k' k) as [->|]; [|apply IH; assumption].
    exfalso. apply Hk. apply (in_map fst) in Hin. exact Hin.
Qed.

(** The count the loops read for a receiver is the number of its
    sequences. *)
Lemma receivers_in_msa_In (msa : MSA) (receivers : list string)
    (k : string) (v : nat) :
  In (k, v) (receivers_in_msa msa receivers) ->
  In k receivers /\ v = count_otu msa k.
Proof.
  intros Hin.
  pose proof (dict_get_In k v _ (receivers_in_msa_keys_NoDup msa receivers)
                Hin) as E.
  rewrite receivers_in_msa_get in E.
  destruct (mem k receivers) eqn:Hk; [|discriminate E].
  injection E as <-. split; [apply mem_In; exact Hk|reflexivity].
Qed.

(** X2: looking a receiver up in the dict that [receivers_in_msa] returns
    gives the number of sequences of the alignment whose OTU is that
    receiver, zero when it has none; an OTU that is no receiver is no
    key. *)
Theorem receivers_in_msa_lookup (msa : MSA) (receivers : list string)
    (k : string) :
  dict_get k (receivers_in_msa msa receivers)
  = if mem k receivers then Some (count_otu msa k) else None.
Proof. apply receivers_in_msa_get. Qed.

(** ** get_seqs_from_otus *)

Lemma prefix_append (a b : string) :
  String.prefix a b = true <-> exists post, b = a ++ post.
Proof.
  revert b. induction a as [|c a IH]; intros b.
  - split; [intros _; exists b; reflexivity|].
    intros _. destruct b; reflexivity.
  - destruct b as [|c' b]; simpl.
    + split; [discriminate|]. intros [post H]. discriminate H.
    + destruct (ascii_dec c c') as [->|Hne].
      * rewrite IH. split; intros [post H]; exists post.
        -- rewrite H. reflexivity.
        -- injection H as H. exact H.
      * split; [discriminate|]. intros [post H]. injection H as H _.
        exfalso. apply Hne. symmetry. exact H.
Qed.

(** Python's [a in b] on strings: [a] occurs somewhere in [b]. *)
Lemma substring_of_occurs (a b : string) :
  substring_of a b = true <-> exists pre post, b = pre ++ a ++ post.
Proof.
  induction b as [|c b IH]; cbn [substring_of].
  - destruct a as [|c' a]; simpl.
    + split; [intros _; exists "", ""; reflexivity|reflexivity].
    + split; [discriminate|]. intros (pre & post & H).
      destruct pre; discriminate H.
  - destruct (String.prefix a (String c b)) eqn:E.
    + split; [|reflexivity]. intros _. apply prefix_append in E.
      destruct E as [post H]. exists "", post. exact H.
    + rewrite IH. split.
      * intros (pre & post & H). exists (String c pre), post.
        rewrite H. reflexivity.
      * intros (pre & post & H). destruct pre as [|c' pre].
        -- exfalso. simpl in H.
           assert (P : String.prefix a (String c b) = true)
             by (apply prefix_append; exists post; exact H).
           rewrite P in E. discriminate E.
        -- injection H as _ H. exists pre, post. exact H.
Qed.

(** X3: called with one OTU, a string, as [replace_receiver_seqs] and
    [cross_contaminate] call it, [get_seqs_from_otus] collects, each once,
    the sequences of the alignment whose OTU occurs in that string: the
    sequences of the OTU itself and also those of every OTU whose name is a
    part of its name. *)
Theorem get_seqs_from_otus_of_string (msa : MSA) (otu : string) :
  NoDup (get_seqs_from_otus msa (Str otu)) /\
  (forall seq,
     In seq (get_seqs_from_otus msa (Str otu))
     <-> In seq (sequences msa) /\
         exists pre post, otu = pre ++ otu_of msa seq ++ post) /\
  (forall seq, In seq (sequences msa) -> otu_of msa seq = otu ->
               In seq (get_seqs_from_otus msa (Str otu))).
Proof.
  split; [apply get_seqs_from_otus_NoDup|]. split.
  - intros seq. rewrite get_seqs_from_otus_In. simpl.
    rewrite substring_of_occurs. reflexivity.
  - intros seq Hin E. apply get_seqs_from_otus_In. split; [exact Hin|].
    simpl. apply substring_of_occurs. exists "", "". rewrite E.
    clear. induction otu as [|c s IH]; simpl; [reflexivity|].
    f_equal. exact IH.
Qed.

(** X4: called with a list or set of OTUs, [get_seqs_from_otus] collects
    the sequences of the alignment whose OTU is one of them, each object
    once also when the alignment lists it several times, and nothing when
    no OTU is given. *)
Theorem get_seqs_from_otus_of_set (msa : MSA) (otus : list string) :
  NoDup (get_seqs_from_otus msa (Coll otus)) /\
  (forall seq,
     In seq (get_seqs_from_otus msa (Coll otus))
     <-> In seq (sequences msa) /\ In (otu_of msa seq) otus) /\
  get_seqs_from_otus msa (Coll []) = [].
Proof.
  split; [apply get_seqs_from_otus_NoDup|]. split.
  - intros seq. rewrite get_seqs_from_otus_In. simpl.
    rewrite mem_In. reflexivity.
  - apply get_seqs_from_otus_none.
Qed.

(** ** remove_seqs_from_otu *)

Lemma remove_seqs_loop_exact (otus : container) (fuel : nat) :
  forall front rest msa,
    sequences msa = (front ++ rest)%list ->
    NoDup (sequences msa) ->
    length rest <= fuel ->
    remove_seqs_loop fuel (length front) otus msa
    = Ok (mkMSA (store msa) (fresh msa)
            (front ++ step_over (fun r => contains otus (otu_of msa r)) rest)).
Proof.
  induction fuel as [|fuel IH]; intros front rest msa Hseq Hnd Hfuel.
  - destruct rest; [|simpl in Hfuel; lia]. simpl.
    rewrite <- Hseq. destruct msa; reflexivity.
  - cbn [remove_seqs_loop]. rewrite Hseq, nth_error_after.
    destruct rest as [|x rest]; cbn [nth_error step_over].
    + rewrite <- Hseq. destruct msa; reflexivity.
    + destruct (contains otus (otu_of msa x)) eqn:Ex.
      * rewrite Hseq in Hnd. unfold remove_sequence.
        rewrite Hseq, list_remove_middle
          by (intros Hin; apply (NoDup_remove_2 _ _ _ Hnd);
              apply in_or_app; left; exact Hin).
        apply NoDup_remove_1 in Hnd.
        destruct rest as [|y rest].
        -- rewrite remove_seqs_loop_past_end
             by (simpl; rewrite app_nil_r; lia).
           reflexivity.
        -- replace (S (length front)) with (length (front ++ [y])%list)
             by (rewrite length_app; simpl; lia).
           rewrite (IH (front ++ [y])%list rest).
           ++ simpl. rewrite <- app_assoc. reflexivity.
           ++ simpl. rewrite <- app_assoc. reflexivity.
           ++ exact Hnd.
           ++ simpl in Hfuel. lia.
      * replace (S (length front)) with (length (front ++ [x])%list)
          by (rewrite length_app; simpl; lia).
        rewrite (IH (front ++ [x])%list rest msa).
        -- rewrite <- app_assoc. reflexivity.
        -- rewrite Hseq, <- app_assoc. reflexivity.
        -- exact Hnd.
        -- simpl in Hfuel. lia.
Qed.

Lemma step_over_filter (p : ref -> bool) (l : list ref) :
  adjacent p l = false ->
  step_over p l = filter (fun r => negb (p r)) l.
Proof.
  induction l as [|x l IH]; intros H; [reflexivity|].
  destruct l as [|y l].
  - simpl. destruct (p x); reflexivity.
  - cbn [adjacent] in H. apply orb_false_elim in H. destruct H as [Hxy Hadj].
    specialize (IH Hadj). cbn [step_over filter] in *.
    destruct (p x) eqn:Ex; simpl.
    + simpl in Hxy. rewrite Hxy in *. simpl in *.
      injection IH as IH. f_equal. exact IH.
    + f_equal. exact IH.
Qed.

Lemma list_remove_filter (f : ref -> bool) (x : ref) (l l' : list ref) :
  list_remove x l = Ok l' -> f x = false -> filter f l' = filter f l.
Proof.
  revert l'. induction l as [|y l IH]; intros l' H Hx; simpl in H;
    [discriminate|].
  destruct (Nat.eqb_spec y x) as [->|Hne].
  - injection H as <-. simpl. rewrite Hx. reflexivity.
  - destruct (list_remove x l) as [l1|]; [|discriminate].
    injection H as <-. simpl. rewrite (IH l1 eq_refl Hx). reflexivity.
Qed.

Lemma remove_seqs_loop_keeps (otus : container) (fuel : nat) :
  forall index msa msa',
    remove_seqs_loop fuel index otus msa = Ok msa' ->
    filter (fun r => negb (contains otus (otu_of msa r))) (sequences msa')
    = filter (fun r => negb (contains otus (otu_of msa r))) (sequences msa)
    /\ incl (sequences msa') (sequences msa).
Proof.
  induction fuel as [|fuel IH]; intros index msa msa' H; simpl in H.
  - injection H as <-. split; [reflexivity|apply incl_refl].
  - destruct (nth_error (sequences msa) index) as [seq|];
      [|injection H as <-; split; [reflexivity|apply incl_refl]].
    destruct (contains otus (otu_of msa seq)) eqn:E; [|apply (IH _ _ _ H)].
    destruct (remove_sequence msa seq) as [msa1|] eqn:R; [|discriminate].
    apply remove_sequence_ok in R. destruct R as (Hs & _ & Hl).
    apply IH in H. destruct H as [H Hincl].
    unfold otu_of in *. rewrite Hs in H.
    rewrite H. split.
    + apply (list_remove_filter _ _ _ _ Hl). rewrite E. reflexivity.
    + apply list_remove_ok in Hl. destruct Hl as (_ & _ & Hi).
      intros z Hz. apply Hi, Hincl, Hz.
Qed.

(** X5: [remove_seqs_from_otu] never raises and changes no object; the
    sequences whose OTU is not among the given ones all stay in the
    alignment, in their order, and nothing is added to it. *)
Theorem remove_seqs_from_otu_keeps_others (msa : MSA) (otus : container) :
  exists msa',
    remove_seqs_from_otu msa otus = Ok msa' /\
    store msa' = store msa /\
    filter (fun r => negb (contains otus (otu_of msa r))) (sequences msa')
    = filter (fun r => negb (contains otus (otu_of msa r))) (sequences msa) /\
    incl (sequences msa') (sequences msa).
Proof.
  unfold remove_seqs_from_otu.
  destruct (remove_seqs_loop_returns otus (length (sequences msa)) 0 msa)
    as (msa' & E & Hs).
  exists msa'. split; [exact E|]. split; [exact Hs|].
  apply (remove_seqs_loop_keeps _ _ _ _ _ E).
Qed.

(** X6: on an alignment of distinct objects, what
    [remove_seqs_from_otu] leaves is exactly what a pass leaves that
    removes the sequences of the given OTUs but steps over the sequence
    that follows each one it removes. *)
Theorem remove_seqs_from_otu_exact (msa : MSA) (otus : container) :
  NoDup (sequences msa) ->
  remove_seqs_from_otu msa otus
  = Ok (mkMSA (store msa) (fresh msa)
          (step_over (fun r => contains otus (otu_of msa r))
                     (sequences msa))).
Proof.
  intros Hnd. unfold remove_seqs_from_otu.
  apply (remove_seqs_loop_exact otus _ [] (sequences msa) msa);
    [reflexivity|exact Hnd|lia].
Qed.

Lemma remove_seqs_from_otu_exact_witness :
  NoDup (sequences two_taxa) /\
  match remove_seqs_from_otu two_taxa (Coll ["Homo"; "Mus"]) with
  | Ok msa' => sequences msa' = [1; 3]
  | Raise _ => False
  end.
Proof.
  assert (Hnd : NoDup (sequences two_taxa))
    by (simpl; repeat constructor; simpl; intuition lia).
  split; [exact Hnd|].
  rewrite (remove_seqs_from_otu_exact two_taxa (Coll ["Homo"; "Mus"]) Hnd).
  reflexivity.
Defined.

(** X7: on an alignment of distinct objects in which no two sequences of
    the given OTUs follow each other, [remove_seqs_from_otu] removes every
    sequence of these OTUs and only them. *)
Theorem remove_seqs_from_otu_complete (msa : MSA) (otus : container) :
  NoDup (sequences msa) ->
  adjacent (fun r => contains otus (otu_of msa r)) (sequences msa) = false ->
  remove_seqs_from_otu msa otus
  = Ok (mkMSA (store msa) (fresh msa)
          (filter (fun r => negb (contains otus (otu_of msa r)))
                  (sequences msa))).
Proof.
  intros Hnd Hadj. unfold remove_seqs_from_otu.
  rewrite (remove_seqs_loop_exact otus _ [] (sequences msa) msa);
    [|reflexivity|exact Hnd|lia].
  simpl. rewrite step_over_filter by exact Hadj. reflexivity.
Qed.

Lemma remove_seqs_from_otu_complete_witness :
  match remove_seqs_from_otu one_donor (Coll ["Mus"]) with
  | Ok msa' => sequences msa' = [0; 1]
  | Raise _ => False
  end.
Proof.
  rewrite (remove_seqs_from_otu_complete one_donor (Coll ["Mus"])).
  - reflexivity.
  - simpl. repeat constructor; simpl; intuition lia.
  - reflexivity.
Defined.

(** ** randomly_assign_seqs *)

(** A sample of [k] elements reads [k] cells of the tape. *)
Lemma sample_cursor {A} (population xs : list A) (k : nat) g g' :
  sample population k g = Ok (xs, g') ->
  tape g' = tape g /\ cursor g' = cursor g + k.
Proof.
  unfold sample. destruct (Nat.ltb_spec (length population) k);
    [discriminate|].
  destruct g as [t c]. rewrite sample_loop_reads by assumption.
  intros E. injection E as _ <-. split; reflexivity.
Qed.

Lemma randomly_assign_seqs_appends (seqs : list ref) :
  forall msa otus g msa' g',
    randomly_assign_seqs msa seqs otus g = Ok (msa', g') ->
    sequences msa' = (sequences msa ++ seqs)%list /\
    fresh msa' = fresh msa /\
    cursor g' = cursor g + length seqs.
Proof.
  induction seqs as [|seq seqs IH]; intros msa otus g msa' g' H; simpl in H.
  - apply ret_ok in H. destruct H as [-> ->].
    rewrite app_nil_r. simpl. repeat split. lia.
  - run_ok H. apply IH in H. destruct H as (Hs & Hf & Hc').
    apply lift_ok in Hc0. destruct Hc0 as [_ ->].
    apply sample_cursor in Hc. destruct Hc as [_ Hc].
    rewrite Hs, Hf, Hc', Hc. cbn. rewrite <- app_assoc.
    repeat split. lia.
Qed.

Lemma randomly_assign_seqs_total (seqs : list ref) :
  forall msa otus g,
    otus <> [] ->
    exists msa' g', randomly_assign_seqs msa seqs otus g = Ok (msa', g').
Proof.
  induction seqs as [|seq seqs IH]; intros msa otus g Hne; simpl.
  - eexists _, _. reflexivity.
  - destruct (sample_total otus 1 g) as (picked & g1 & E).
    { destruct otus; [contradiction|simpl; lia]. }
    rewrite (bind_step _ _ _ _ _ E).
    apply sample_ok in E. destruct E as (Hlen & _ & _).
    destruct picked as [|c picked]; [discriminate Hlen|].
    unfold bind at 1, lift, getitem. cbn [nth_error].
    apply IH. exact Hne.
Qed.

(** X8: when [randomly_assign_seqs] returns, the sequences it was given,
    distinct objects, have been appended to the alignment in their order;
    each of them is described as [otu@identifier_from_old], with its
    identifier and OTU of before the call and [otu] an element of the set
    of OTUs given; no other object has changed. *)
Theorem randomly_assign_seqs_spec (msa : MSA) (seqs : list ref)
    (otus : set string) g (msa' : MSA) g' :
  NoDup seqs ->
  randomly_assign_seqs msa seqs otus g = Ok (msa', g') ->
  sequences msa' = (sequences msa ++ seqs)%list /\
  (forall seq, In seq seqs ->
     exists c, In c otus /\
       description (store msa' seq)
       = c ++ "@" ++ identifier (store msa seq) ++ "_from_"
           ++ otu_of msa seq) /\
  (forall r, ~ In r seqs -> store msa' r = store msa r).
Proof.
  intros Hnd H.
  destruct (randomly_assign_seqs_appends _ _ _ _ _ _ H) as (Hs & _ & _).
  split; [exact Hs|]. split.
  - apply (randomly_assign_seqs_labels _ _ _ _ _ _ Hnd H).
  - apply (randomly_assign_seqs_frame _ _ _ _ _ _ H).
Qed.

Lemma randomly_assign_seqs_spec_witness :
  match randomly_assign_seqs two_taxa [2; 3] ["Homo"] (rng_of []) with
  | Ok (msa', g') => sequences msa' = [0; 1; 2; 3; 2; 3]
  | Raise _ => False
  end.
Proof.
  assert (R : returned (randomly_assign_seqs two_taxa [2; 3] ["Homo"]
                          (rng_of [])) = true) by (vm_compute; reflexivity).
  destruct (randomly_assign_seqs two_taxa [2; 3] ["Homo"] (rng_of []))
    as [[msa' g']|e] eqn:E; [|discriminate R].
  assert (Hnd : NoDup [2; 3]) by (repeat constructor; simpl; intuition lia).
  destruct (randomly_assign_seqs_spec two_taxa [2; 3] ["Homo"] (rng_of [])
              msa' g' Hnd E) as (Hs & _).
  exact Hs.
Defined.

(** X9: [randomly_assign_seqs] with sequences to assign returns for every
    state of the random source when the set of OTUs has an element, and
    raises the ValueError of [random.sample] when the set is empty; with no
    sequence it returns the alignment as it is without drawing. *)
Theorem randomly_assign_seqs_returns (msa : MSA) (seq : ref)
    (seqs : list ref) (otus : set string) g :
  (otus <> [] ->
   exists msa' g',
     randomly_assign_seqs msa (seq :: seqs) otus g = Ok (msa', g')) /\
  randomly_assign_seqs msa (seq :: seqs) [] g
  = Raise SampleLargerThanPopulation /\
  randomly_assign_seqs msa [] otus g = Ok (msa, g).
Proof.
  split; [apply randomly_assign_seqs_total|]. split; reflexivity.
Qed.

(** ** add_noise *)

Lemma get_nth_error (l : list ascii) (i : nat) :
  String.get i (string_of_list_ascii l) = nth_error l i.
Proof.
  revert i. induction l as [|c l IH]; intros [|i]; simpl; auto.
Qed.

Lemma nth_error_get (s : string) (i : nat) :
  nth_error (list_ascii_of_string s) i = String.get i s.
Proof.
  revert i. induction s as [|c s IH]; intros [|i]; simpl; auto.
Qed.

Lemma setitem_other {A} (l : list A) (p : nat) (x : A) (l' : list A)
    (i : nat) :
  setitem l p x = Ok l' -> i <> p -> nth_error l' i = nth_error l i.
Proof.
  revert p l' i. induction l as [|y l IH]; intros [|p] l' i H Hne;
    simpl in H; try discriminate.
  - injection H as <-. destruct i; [contradiction|reflexivity].
  - destruct (setitem l p x) as [l1|] eqn:E; [|discriminate].
    injection H as <-. destruct i as [|i]; [reflexivity|]. simpl.
    apply (IH p l1 i E). lia.
Qed.

Lemma setitem_In {A} (l : list A) (p : nat) (x : A) (l' : list A) (y : A) :
  setitem l p x = Ok l' -> In y l' -> y = x \/ In y l.
Proof.
  revert p l'. induction l as [|z l IH]; intros [|p] l' H Hy; simpl in H;
    try discriminate.
  - injection H as <-. destruct Hy as [<-|Hy]; [left; reflexivity|].
    right. right. exact Hy.
  - destruct (setitem l p x) as [l1|] eqn:E; [|discriminate].
    injection H as <-. destruct Hy as [<-|Hy]; [right; left; reflexivity|].
    destruct (IH p l1 E Hy) as [->|Hin]; [left; reflexivity|].
    right. right. exact Hin.
Qed.

Lemma substitute_frame (positions replacements : list nat) :
  forall index sequence sequence' i,
    substitute index positions replacements sequence = Ok sequence' ->
    ~ In i positions ->
    nth_error sequence' i = nth_error sequence i.
Proof.
  induction positions as [|p ps IH]; intros index l l' i H Hi; simpl in H.
  - injection H as <-. reflexivity.
  - destruct (getitem replacements index) as [source|]; [|discriminate].
    destruct (getitem l source) as [c|]; [|discriminate].
    destruct (setitem l p c) as [l1|] eqn:E; [|discriminate].
    rewrite (IH _ _ _ i H) by (intros F; apply Hi; right; exact F).
    apply (setitem_other _ _ _ _ _ E). intros ->. apply Hi. left.
    reflexivity.
Qed.

Lemma substitute_chars (positions replacements : list nat) :
  forall index sequence sequence' c,
    substitute index positions replacements sequence = Ok sequence' ->
    In c sequence' -> In c sequence.
Proof.
  induction positions as [|p ps IH]; intros index l l' c H Hc; simpl in H.
  - injection H as <-. exact Hc.
  - destruct (getitem replacements index) as [source|]; [|discriminate].
    destruct (getitem l source) as [x|] eqn:G; [|discriminate].
    destruct (setitem l p x) as [l1|] eqn:E; [|discriminate].
    apply (IH _ _ _ c H) in Hc.
    destruct (setitem_In _ _ _ _ _ E Hc) as [->|Hin]; [|exact Hin].
    apply getitem_In in G. exact G.
Qed.

(** What a successful call of [add_noise] drew and did. *)
Lemma add_noise_trace (sequence : string) (max_substitutions : nat) g
    (sequence' : string) (substitutions : nat) g' :
  add_noise sequence max_substitutions g = Ok (sequence', substitutions, g') ->
  exists positions replacements buffer,
    1 <= substitutions <= max_substitutions /\
    length positions = substitutions /\ NoDup positions /\
    (forall p, In p positions -> 1 <= p < String.length sequence) /\
    substitute 0 positions replacements (list_ascii_of_string sequence)
    = Ok buffer /\
    sequence' = string_of_list_ascii buffer /\
    cursor g' = cursor g + 1 + 2 * substitutions.
Proof.
  unfold add_noise. intros H. run_ok H.
  apply ret_ok in H. destruct H as [H Eg]. injection H as -> ->.
  pose proof (randint_ok _ _ _ _ _ Hc) as [Hk _].
  assert (C0 : cursor g0 = S (cursor g)).
  { unfold randint in Hc. destruct (max_substitutions <? 1); [discriminate|].
    run_ok Hc. apply ret_ok in Hc. destruct Hc as [_ ->].
    unfold next in Hc3. injection Hc3 as _ <-. reflexivity. }
  pose proof (sample_cursor _ _ _ _ _ Hc0) as [_ C1].
  pose proof (sample_cursor _ _ _ _ _ Hc1) as [_ C2].
  apply sample_ok in Hc0. destruct Hc0 as (Hlen & Hin & Hnd).
  apply lift_ok in Hc2. destruct Hc2 as [Hsub Eg'].
  exists a0, a1, a2. split; [exact Hk|]. split; [exact Hlen|].
  split; [apply Hnd, seq_NoDup|]. split.
  - intros p Hp. apply Hin, range_In in Hp. exact Hp.
  - split; [exact Hsub|]. split; [reflexivity|].
    subst g' g3. lia.
Qed.

(** X10: the number of substitutions [add_noise] returns is between 1 and
    [max_substitutions] and below the length of the sequence. *)
Theorem add_noise_bounds (sequence : string) (max_substitutions : nat) g
    (sequence' : string) (substitutions : nat) g' :
  add_noise sequence max_substitutions g = Ok (sequence', substitutions, g') ->
  1 <= substitutions <= max_substitutions /\
  substitutions < String.length sequence.
Proof.
  intros H. apply add_noise_trace in H.
  destruct H as (ps & rs & buffer & Hk & Hlen & Hnd & Hp & _ & _ & _).
  split; [exact Hk|].
  assert (L : length ps <= length (range 1 (String.length sequence))).
  { apply NoDup_incl_length; [exact Hnd|].
    intros p Hin. apply range_In, Hp, Hin. }
  rewrite range_length in L. lia.
Qed.

Lemma add_noise_bounds_witness :
  add_noise "ACGT" 3 (rng_of [2; 1; 1; 0; 2; 0; 0])
  = Ok ("ATTC", 3, mkRng (tape (rng_of [2; 1; 1; 0; 2; 0; 0])) 7) /\
  1 <= 3 <= 3 /\ 3 < String.length "ACGT".
Proof.
  split; [reflexivity|].
  destruct (add_noise_bounds "ACGT" 3 (rng_of [2; 1; 1; 0; 2; 0; 0]) "ATTC" 3
              (mkRng (tape (rng_of [2; 1; 1; 0; 2; 0; 0])) 7) eq_refl)
    as (H1 & H2).
  split; [exact H1|exact H2].
Defined.

(** X11: [add_noise] brings no new character: every character of the
    string it returns is a character of the string it was given. *)
Theorem add_noise_characters (sequence : string) (max_substitutions : nat) g
    (sequence' : string) (substitutions : nat) g' :
  add_noise sequence max_substitutions g = Ok (sequence', substitutions, g') ->
  forall c, In c (list_ascii_of_string sequence') ->
            In c (list_ascii_of_string sequence).
Proof.
  intros H c Hc. apply add_noise_trace in H.
  destruct H as (ps & rs & buffer & _ & _ & _ & _ & Hsub & -> & _).
  rewrite list_ascii_of_string_of_list_ascii in Hc.
  apply (substitute_chars _ _ _ _ _ _ Hsub Hc).
Qed.

Lemma add_noise_characters_witness :
  add_noise "ACGT" 3 (rng_of [2; 1; 1; 0; 2; 0; 0])
  = Ok ("ATTC", 3, mkRng (tape (rng_of [2; 1; 1; 0; 2; 0; 0])) 7) /\
  forall c, In c (list_ascii_of_string "ATTC") ->
            In c (list_ascii_of_string "ACGT").
Proof.
  split; [reflexivity|].
  apply (add_noise_characters "ACGT" 3 (rng_of [2; 1; 1; 0; 2; 0; 0]) "ATTC" 3
           (mkRng (tape (rng_of [2; 1; 1; 0; 2; 0; 0])) 7)).
  reflexivity.
Defined.

(** X12: the string [add_noise] returns differs from the one it was given
    at [substitutions] indices at most, none of them index 0: outside a
    list of that many distinct indices of the sequence, from 1 on, every
    character is as it was. *)
Theorem add_noise_changes (sequence : string) (max_substitutions : nat) g
    (sequence' : string) (substitutions : nat) g' :
  add_noise sequence max_substitutions g = Ok (sequence', substitutions, g') ->
  exists positions,
    length positions = substitutions /\ NoDup positions /\
    (forall p, In p positions -> 1 <= p < String.length sequence) /\
    forall i, ~ In i positions ->
              String.get i sequence' = String.get i sequence.
Proof.
  intros H. apply add_noise_trace in H.
  destruct H as (ps & rs & buffer & _ & Hlen & Hnd & Hp & Hsub & -> & _).
  exists ps. split; [exact Hlen|]. split; [exact Hnd|]. split; [exact Hp|].
  intros i Hi. rewrite get_nth_error, <- nth_error_get.
  apply (substitute_frame _ _ _ _ _ _ Hsub Hi).
Qed.

Lemma add_noise_changes_witness :
  add_noise "ACGT" 3 (rng_of [2; 1; 1; 0; 2; 0; 0])
  = Ok ("ATTC", 3, mkRng (tape (rng_of [2; 1; 1; 0; 2; 0; 0])) 7) /\
  exists positions,
    length positions = 3 /\ NoDup positions /\
    (forall p, In p positions -> 1 <= p < String.length "ACGT") /\
    forall i, ~ In i positions -> String.get i "ATTC" = String.get i "ACGT".
Proof.
  split; [reflexivity|].
  apply (add_noise_changes "ACGT" 3 (rng_of [2; 1; 1; 0; 2; 0; 0]) "ATTC" 3
           (mkRng (tape (rng_of [2; 1; 1; 0; 2; 0; 0])) 7)).
  reflexivity.
Defined.

(** X13: [add_noise] raises for every state of the random source when
    [max_substitutions] is 0, the ValueError of [random.randint], and when
    the sequence has fewer than two characters, the ValueError of
    [random.sample]: there is no index from 1 on to draw. *)
Theorem add_noise_invalid (sequence : string) (max_substitutions : nat) g :
  (max_substitutions = 0 ->
   add_noise sequence max_substitutions g = Raise EmptyRange) /\
  (1 <= max_substitutions -> String.length sequence <= 1 ->
   add_noise sequence max_substitutions g = Raise SampleLargerThanPopulation).
Proof.
  split.
  - intros ->. reflexivity.
  - intros Hm Hlen.
    apply (add_noise_raises sequence max_substitutions g _ _
             (randint_total 1 max_substitutions g Hm)).
    lia.
Qed.

(** ** cross_contaminate *)

(** The objects after [add_sequence] has constructed a sequence. *)
Lemma new_sequence_store (msa : MSA) (d s : string) (r : ref) :
  store (add_sequence msa None (Some d) (Some s)) r
  = if r =? fresh msa
    then mkSequence (label_otu d) (label_identifier d) d s
    else store msa r.
Proof. cbn. destruct (r =? fresh msa); reflexivity. Qed.

(** What a contamination event that completes went through. *)
Lemma contaminate_shape (st : contamination_state) (otu : string)
    (max_substitutions : nat) g (st' : contamination_state) g' :
  contaminate st otu max_substitutions g = Ok (st', g') ->
  exists original contaminant contaminated_seq substitutions rest g1 g2,
    In original (get_seqs_from_otus (cc_msa st) (Str otu)) /\
    In contaminant (sequences (cc_msa st)) /\
    add_noise (sequence_data (store (cc_msa st) original)) max_substitutions
              g1
    = Ok (contaminated_seq, substitutions, g2) /\
    list_remove contaminant (sequences (cc_msa st)) = Ok rest /\
    sequences (cc_msa st') = (rest ++ [fresh (cc_msa st)])%list /\
    store (cc_msa st')
    = store (add_sequence (cc_msa st) None
               (Some (otu_of (cc_msa st) contaminant ++ "@"
                      ++ identifier (store (cc_msa st) original)
                      ++ "_contaminated_" ++ otu ++ "_" ++ str substitutions
                      ++ "_subs"))
               (Some contaminated_seq)) /\
    contamination_count st' = S (contamination_count st).
Proof.
  unfold contaminate. intros H. run_ok H.
  destruct a1 as [contaminated_seq substitutions]. run_ok H.
  apply ret_ok in H. destruct H as [-> _]. cbn [cc_msa contamination_count].
  apply sample_ok in Hc. destruct Hc as (_ & Hin0 & _).
  apply lift_ok in Hc0. destruct Hc0 as [Hget0 _].
  apply getitem_In, Hin0 in Hget0.
  apply sample_ok in Hc2. destruct Hc2 as (_ & Hin & _).
  apply lift_ok in Hc3. destruct Hc3 as [Hget _].
  apply getitem_In, Hin in Hget.
  apply lift_ok in Hc4. destruct Hc4 as [Hrem _].
  apply remove_sequence_ok in Hrem. destruct Hrem as (Hs & _ & Hrem).
  destruct (list_remove_In _ _ Hget) as (rest & Erest & _).
  cbn [add_sequence sequences fresh relabel update set_description
       set_sequence_data] in Hrem.
  rewrite (list_remove_app _ _ _ _ Erest) in Hrem. injection Hrem as Hseq.
  exists a0, a2, contaminated_seq, substitutions, rest, g1, g2.
  split; [exact Hget0|]. split; [exact Hget|]. split; [exact Hc1|].
  split; [exact Erest|]. split; [symmetry; exact Hseq|].
  split; [exact Hs|reflexivity].
Qed.

Lemma contaminate_length (st : contamination_state) (otu : string)
    (max_substitutions : nat) g (st' : contamination_state) g' :
  contaminate st otu max_substitutions g = Ok (st', g') ->
  length (sequences (cc_msa st')) = length (sequences (cc_msa st)) /\
  contamination_count st' = S (contamination_count st).
Proof.
  intros H. apply contaminate_shape in H.
  destruct H as (o & c & cs & k & rest & g1 & g2 & _ & _ & _ & Hrem & Hseq
                 & _ & Hcount).
  split; [|exact Hcount].
  apply list_remove_ok in Hrem. destruct Hrem as (_ & Hlen & _).
  rewrite Hseq, length_app. simpl. lia.
Qed.

Lemma contaminate_loop_invariant (likelihood : float)
    (max_substitutions : nat) (receiver_count : dict) :
  forall st g st' g',
    contaminate_loop likelihood max_substitutions receiver_count st g
    = Ok (st', g') ->
    length (sequences (cc_msa st')) = length (sequences (cc_msa st)) /\
    contamination_count st'
    <= contamination_count st + length (present receiver_count).
Proof.
  induction receiver_count as [|[otu count] rest IH]; intros st g st' g' H.
  - apply ret_ok in H. destruct H as [-> _]. simpl. split; lia.
  - cbn [contaminate_loop] in H. run_ok H. apply IH in H.
    destruct H as [Hlen Hcount]. unfold present in *. cbn [filter snd].
    unfold contaminate_receiver in Hc. destruct (count =? 0).
    + apply ret_ok in Hc. destruct Hc as [-> _]. simpl. split; lia.
    + run_ok Hc. simpl. destruct (spared likelihood a0).
      * apply ret_ok in Hc. destruct Hc as [-> _]. split; lia.
      * apply contaminate_length in Hc. destruct Hc as [Hl Hc]. split; lia.
Qed.

(** X14: when [cross_contaminate] returns, the alignment has as many
    sequences as before the call, whatever the number of contamination
    events, and there are no more events than receivers with a sequence in
    the alignment. *)
Theorem cross_contaminate_count (msa : MSA) (receivers : list string)
    (likelihood : float) (max_substitutions : nat) g
    (st : contamination_state) g' :
  cross_contaminate msa receivers likelihood max_substitutions g
  = Ok (st, g') ->
  length (sequences (cc_msa st)) = length (sequences msa) /\
  contamination_count st <= length (present (receivers_in_msa msa receivers)).
Proof.
  unfold cross_contaminate. intros H.
  apply contaminate_loop_invariant in H. exact H.
Qed.

Lemma cross_contaminate_count_witness :
  match cross_contaminate two_taxa ["Homo"; "Mus"] 1 3
          (rng_of [1; 1; 2; 3; 2; 1; 2; 3; 2; 5; 3; 1]) with
  | Ok (st, _) => length (sequences (cc_msa st)) = 4
  | Raise _ => False
  end.
Proof.
  assert (R : returned (cross_contaminate two_taxa ["Homo"; "Mus"] 1 3
                          (rng_of [1; 1; 2; 3; 2; 1; 2; 3; 2; 5; 3; 1]))
              = true) by (vm_compute; reflexivity).
  destruct (cross_contaminate two_taxa ["Homo"; "Mus"] 1 3
              (rng_of [1; 1; 2; 3; 2; 1; 2; 3; 2; 5; 3; 1]))
    as [[st g']|e] eqn:E; [|discriminate R].
  apply (cross_contaminate_count _ _ _ _ _ _ _ E).
Defined.

(** X15: the sequence a contamination event adds is described as
    [contaminant@identifier_contaminated_receiver_n_subs], with the OTU of
    the sampled contaminant, the identifier of a sequence sampled among
    those collected for the receiver, and [n] the number of substitutions,
    between 1 and [max_substitutions]; its data are as long as the data of
    that sequence; no object that existed has changed. *)
Theorem contaminate_new_sequence (st : contamination_state) (otu : string)
    (max_substitutions : nat) g (st' : contamination_state) g' :
  contaminate st otu max_substitutions g = Ok (st', g') ->
  exists original contaminant substitutions,
    In original (get_seqs_from_otus (cc_msa st) (Str otu)) /\
    In contaminant (sequences (cc_msa st)) /\
    1 <= substitutions <= max_substitutions /\
    description (store (cc_msa st') (fresh (cc_msa st)))
    = otu_of (cc_msa st) contaminant ++ "@"
        ++ identifier (store (cc_msa st) original)
        ++ "_contaminated_" ++ otu ++ "_" ++ str substitutions ++ "_subs" /\
    String.length (sequence_data (store (cc_msa st') (fresh (cc_msa st))))
    = String.length (sequence_data (store (cc_msa st) original)) /\
    forall r, r <> fresh (cc_msa st) ->
              store (cc_msa st') r = store (cc_msa st) r.
Proof.
  intros H. apply contaminate_shape in H.
  destruct H as (o & c & cs & k & rest & g1 & g2 & Ho & Hc & Hnoise & _ & _
                 & Hstore & _).
  exists o, c, k. split; [exact Ho|]. split; [exact Hc|].
  pose proof (add_noise_ok _ _ _ _ _ _ Hnoise)
    as (ps & rs & buffer & Hk & _ & _ & Hsub & Ecs).
  split; [exact Hk|]. rewrite Hstore.
  split; [|split].
  - rewrite new_sequence_store, Nat.eqb_refl. reflexivity.
  - rewrite new_sequence_store, Nat.eqb_refl. cbn [sequence_data].
    rewrite Ecs, string_of_list_ascii_length.
    apply substitute_length in Hsub. rewrite Hsub.
    apply list_ascii_of_string_length.
  - intros r Hr. rewrite new_sequence_store.
    destruct (Nat.eqb_spec r (fresh (cc_msa st))); [contradiction|].
    reflexivity.
Qed.

Lemma contaminate_new_sequence_witness :
  match contaminate (mkContamination two_taxa 0) "Homo" 2
          (rng_of [1; 0; 3; 2]) with
  | Ok (st', _) =>
      exists original contaminant substitutions,
        1 <= substitutions <= 2 /\
        description (store (cc_msa st')
                       (fresh (cc_msa (mkContamination two_taxa 0))))
        = otu_of (cc_msa (mkContamination two_taxa 0)) contaminant ++ "@"
            ++ identifier (store (cc_msa (mkContamination two_taxa 0))
                             original)
            ++ "_contaminated_" ++ "Homo" ++ "_" ++ str substitutions
            ++ "_subs"
  | Raise _ => False
  end.
Proof.
  assert (R : returned (contaminate (mkContamination two_taxa 0) "Homo" 2
                          (rng_of [1; 0; 3; 2])) = true)
    by (vm_compute; reflexivity).
  destruct (contaminate (mkContamination two_taxa 0) "Homo" 2
              (rng_of [1; 0; 3; 2])) as [[st' g']|e] eqn:E;
    [|discriminate R].
  destruct (contaminate_new_sequence _ _ _ _ _ _ E)
    as (o & c & k & _ & _ & Hk & Hd & _).
  exists o, c, k. split; [exact Hk|exact Hd].
Defined.

(** With likelihood 1.0 no draw spares the receiver. *)
Lemma spared_one (draw : nat) : draw < 100 -> spared 1 draw = false.
Proof.
  intros H.
  assert (E : forallb (fun d => negb (spared 1 d)) (seq 0 100) = true)
    by (vm_compute; reflexivity).
  rewrite forallb_forall in E. apply negb_true_iff. apply E.
  apply in_seq. lia.
Qed.

Lemma contaminate_loop_certain (max_substitutions : nat)
    (receiver_count : dict) :
  forall st g st' g',
    contaminate_loop 1 max_substitutions receiver_count st g = Ok (st', g') ->
    contamination_count st'
    = contamination_count st + length (present receiver_count).
Proof.
  induction receiver_count as [|[otu count] rest IH]; intros st g st' g' H.
  - apply ret_ok in H. destruct H as [-> _]. simpl. lia.
  - cbn [contaminate_loop] in H. run_ok H. apply IH in H.
    unfold present in *. cbn [filter snd].
    unfold contaminate_receiver in Hc. destruct (count =? 0).
    + apply ret_ok in Hc. destruct Hc as [-> _]. simpl. lia.
    + run_ok Hc. unfold randrange in Hc0. run_ok Hc0.
      apply ret_ok in Hc0. destruct Hc0 as [-> _].
      rewrite spared_one in Hc
        by (apply Nat.mod_upper_bound; discriminate).
      apply contaminate_length in Hc. destruct Hc as [_ Hc]. simpl. lia.
Qed.

(** X16: with likelihood 1.0, when [cross_contaminate] returns it has
    contaminated once for each receiver that had a sequence in the
    alignment at the start. *)
Theorem cross_contaminate_certain (msa : MSA) (receivers : list string)
    (max_substitutions : nat) g (st : contamination_state) g' :
  cross_contaminate msa receivers 1 max_substitutions g = Ok (st, g') ->
  contamination_count st = length (present (receivers_in_msa msa receivers)).
Proof.
  unfold cross_contaminate. intros H.
  apply contaminate_loop_certain in H. exact H.
Qed.

Lemma cross_contaminate_certain_witness :
  match cross_contaminate two_taxa ["Homo"; "Mus"] 1 3
          (rng_of [1; 1; 2; 3; 2; 1; 2; 3; 2; 5; 3; 1]) with
  | Ok (st, _) =>
      contamination_count st
      = length (present (receivers_in_msa two_taxa ["Homo"; "Mus"]))
  | Raise _ => False
  end.
Proof.
  assert (R : returned (cross_contaminate two_taxa ["Homo"; "Mus"] 1 3
                          (rng_of [1; 1; 2; 3; 2; 1; 2; 3; 2; 5; 3; 1]))
              = true) by (vm_compute; reflexivity).
  destruct (cross_contaminate two_taxa ["Homo"; "Mus"] 1 3
              (rng_of [1; 1; 2; 3; 2; 1; 2; 3; 2; 5; 3; 1]))
    as [[st g']|e] eqn:E; [|discriminate R].
  apply (cross_contaminate_certain _ _ _ _ _ _ E).
Defined.

Lemma count_otu_absent (msa : MSA) (receivers : list string) (k : string) :
  (forall seq, In seq (sequences msa) ->
               mem (otu_of msa seq) receivers = false) ->
  In k receivers -> count_otu msa k = 0.
Proof.
  intros H Hk. unfold count_otu.
  destruct (filter _ (sequences msa)) as [|seq l] eqn:E; [reflexivity|].
  assert (Hin : In seq (filter (fun seq => String.eqb (otu_of msa seq) k)
                               (sequences msa)))
    by (rewrite E; left; reflexivity).
  apply filter_In in Hin. destruct Hin as [Hin Hotu].
  apply String.eqb_eq in Hotu. apply H in Hin. rewrite Hotu in Hin.
  apply mem_false in Hin. contradiction.
Qed.

Lemma contaminate_loop_absent (likelihood : float) (max_substitutions : nat)
    (receiver_count : dict) (st : contamination_state) g :
  (forall k v, In (k, v) receiver_count -> v = 0) ->
  contaminate_loop likelihood max_substitutions receiver_count st g
  = Ok (st, g).
Proof.
  induction receiver_count as [|[otu count] rest IH]; intros H;
    [reflexivity|].
  cbn [contaminate_loop]. unfold contaminate_receiver.
  rewrite (H otu count) by (left; reflexivity). simpl.
  apply IH. intros k v Hin. apply (H k v). right. exact Hin.
Qed.

(** X17: when no sequence of the alignment belongs to a receiver,
    [cross_contaminate] returns the alignment as it is and reports no
    event, for every likelihood and without drawing a number. *)
Theorem cross_contaminate_no_receiver (msa : MSA) (receivers : list string)
    (likelihood : float) (max_substitutions : nat) g :
  (forall seq, In seq (sequences msa) ->
               mem (otu_of msa seq) receivers = false) ->
  cross_contaminate msa receivers likelihood max_substitutions g
  = Ok (mkContamination msa 0, g).
Proof.
  intros H. unfold cross_contaminate. apply contaminate_loop_absent.
  intros k v Hin. apply receivers_in_msa_In in Hin.
  destruct Hin as [Hk ->]. apply (count_otu_absent msa receivers k H Hk).
Qed.

Lemma cross_contaminate_no_receiver_witness :
  contamination_report
    (cross_contaminate two_taxa ["Pan"] 1 3 (rng_of [7]))
  = Some (0, ["Homo@1"; "Homo@2"; "Mus@1"; "Mus@2"]).
Proof.
  rewrite (cross_contaminate_no_receiver two_taxa ["Pan"] 1 3 (rng_of [7])).
  - vm_compute. reflexivity.
  - assert (F : forallb (fun seq => negb (mem (otu_of two_taxa seq) ["Pan"]))
                        (sequences two_taxa) = true)
      by (vm_compute; reflexivity).
    rewrite forallb_forall in F. intros seq Hin.
    apply negb_true_iff, F, Hin.
Defined.

(** ** replace_receiver_seqs *)

Lemma swap_loop_no_surplus (receivers : list string) (receiver_count : dict)
    (st : swap_state) g :
  (forall k v, In (k, v) receiver_count -> v <= 1) ->
  swap_loop receivers receiver_count st g = Ok (st, g).
Proof.
  induction receiver_count as [|[otu count] rest IH]; intros H;
    [reflexivity|].
  cbn [swap_loop]. unfold swap_receiver.
  destruct (Nat.leb_spec count 1) as [_|Hc].
  - unfold bind, ret. apply IH. intros k v Hin. apply (H k v). right.
    exact Hin.
  - specialize (H otu count (or_introl eq_refl)). lia.
Qed.

(** X18: when no receiver has more than one sequence in the alignment,
    [replace_receiver_seqs] returns the alignment as it is, reports no
    swap and no receiver, and draws no number. *)
Theorem replace_receiver_seqs_no_surplus (msa : MSA)
    (receivers : list string) g :
  (forall k, In k receivers -> count_otu msa k <= 1) ->
  replace_receiver_seqs msa receivers g
  = Ok (mkSwap msa 0 (empty_set string), g).
Proof.
  intros H. unfold replace_receiver_seqs. apply swap_loop_no_surplus.
  intros k v Hin. apply receivers_in_msa_In in Hin.
  destruct Hin as [Hk ->]. apply H, Hk.
Qed.

Lemma replace_receiver_seqs_no_surplus_witness :
  swap_report (replace_receiver_seqs two_receivers ["C"; "D"; "F"] (rng_of [5]))
  = Some (0, [], ["A@1"; "A@2"; "B@1"; "B@2"; "C@1"; "D@1"; "E@1"]).
Proof.
  rewrite (replace_receiver_seqs_no_surplus two_receivers ["C"; "D"; "F"]
             (rng_of [5])).
  - vm_compute. reflexivity.
  - assert (F : forallb (fun k => count_otu two_receivers k <=? 1)
                        ["C"; "D"; "F"] = true) by (vm_compute; reflexivity).
    rewrite forallb_forall in F. intros k Hk. apply Nat.leb_le, F, Hk.
Defined.

Lemma set_add_new (x : string) (l : set string) :
  ~ In x l -> set_add string_dec x l = (l ++ [x])%list.
Proof.
  induction l as [|y l IH]; intros H; simpl; [reflexivity|].
  destruct (string_dec x y) as [->|_]; [exfalso; apply H; left; reflexivity|].
  rewrite IH; [reflexivity|]. intros Hin. apply H. right. exact Hin.
Qed.

Lemma swap_loop_affected (receivers : list string) (receiver_count : dict) :
  forall st g st' g',
    swap_loop receivers receiver_count st g = Ok (st', g') ->
    NoDup (affected_receivers st ++ map fst receiver_count) ->
    affected_receivers st'
    = (affected_receivers st ++ map fst (surplus receiver_count))%list.
Proof.
  induction receiver_count as [|[otu count] rest IH];
    intros st g st' g' H Hnd.
  - apply ret_ok in H. destruct H as [-> _]. simpl. rewrite app_nil_r.
    reflexivity.
  - cbn [swap_loop] in H. run_ok H. unfold surplus in *.
    cbn [filter snd map fst] in *. unfold swap_receiver in Hc.
    destruct (count <=? 1); cbn [negb].
    + apply ret_ok in Hc. destruct Hc as [-> _].
      apply (IH _ _ _ _ H). apply NoDup_remove_1 in Hnd. exact Hnd.
    + run_ok Hc. apply ret_ok in Hc. destruct Hc as [-> _].
      rewrite (IH _ _ _ _ H); cbn [affected_receivers].
      * rewrite set_add_new, <- app_assoc; [reflexivity|].
        intros Hin. apply (NoDup_remove_2 _ _ _ Hnd).
        apply in_or_app. left. exact Hin.
      * rewrite set_add_new, <- app_assoc; [exact Hnd|].
        intros Hin. apply (NoDup_remove_2 _ _ _ Hnd).
        apply in_or_app. left. exact Hin.
Qed.

(** X19: when [replace_receiver_seqs] returns, the number of sequences it
    reports as swapped is the sum, over the receivers that have more than
    one sequence in the alignment at the start, of their count minus one,
    and the receivers it counts as affected are those receivers, in the
    order of the dict. *)
Theorem replace_receiver_seqs_reports (msa : MSA) (receivers : list string)
    g (st : swap_state) g' :
  replace_receiver_seqs msa receivers g = Ok (st, g') ->
  swap_count st = cumulative_surplus (receivers_in_msa msa receivers) /\
  affected_receivers st = map fst (surplus (receivers_in_msa msa receivers)).
Proof.
  unfold replace_receiver_seqs. intros H. split.
  - apply swap_loop_count in H. exact H.
  - apply swap_loop_affected in H; [exact H|].
    apply receivers_in_msa_keys_NoDup.
Qed.

Lemma replace_receiver_seqs_reports_witness :
  match replace_receiver_seqs two_receivers ["A"; "B"] (rng_of []) with
  | Ok (st, _) =>
      swap_count st
      = cumulative_surplus (receivers_in_msa two_receivers ["A"; "B"]) /\
      affected_receivers st
      = map fst (surplus (receivers_in_msa two_receivers ["A"; "B"]))
  | Raise _ => False
  end.
Proof.
  assert (R : returned (replace_receiver_seqs two_receivers ["A"; "B"]
                          (rng_of [])) = true) by (vm_compute; reflexivity).
  destruct (replace_receiver_seqs two_receivers ["A"; "B"] (rng_of []))
    as [[st g']|e] eqn:E; [|discriminate R].
  apply (replace_receiver_seqs_reports _ _ _ _ _ E).
Defined.

Lemma append_empty (s : string) : s ++ "" = s.
Proof. induction s as [|c s IH]; simpl; [reflexivity|f_equal; exact IH]. Qed.

Lemma substring_of_refl (s : string) : substring_of s s = true.
Proof.
  apply substring_of_occurs. exists "", "". simpl. symmetry.
  apply append_empty.
Qed.

(** On distinct objects, a receiver has at least as many sequences
    collected for it as the dict counts. *)
Lemma count_otu_collected (msa : MSA) (otu : string) :
  NoDup (sequences msa) ->
  count_otu msa otu <= length (get_seqs_from_otus msa (Str otu)).
Proof.
  intros Hnd. unfold count_otu.
  apply NoDup_incl_length; [apply NoDup_filter; exact Hnd|].
  intros seq Hin. apply filter_In in Hin. destruct Hin as [Hin E].
  apply String.eqb_eq in E. apply get_seqs_from_otus_In.
  split; [exact Hin|]. simpl. rewrite E. apply substring_of_refl.
Qed.

Lemma set_of_string_nonempty (s : string) :
  s <> "" -> set_of_string s <> [].
Proof.
  destruct s as [|c s]; [contradiction|]. intros _.
  unfold set_of_string. simpl.
  generalize (list_ascii_of_string s).
  assert (G : forall chars acc, acc <> [] ->
            fold_left (fun acc ch =>
                         set_add string_dec (String ch EmptyString) acc)
                      chars acc <> []).
  { induction chars as [|ch chars IH]; intros acc Hacc; simpl;
      [exact Hacc|].
    apply IH. apply set_add_not_empty. }
  intros chars. apply G. discriminate.
Qed.

Lemma pick_otus_randomly_total (msa : MSA) (count : nat)
    (exclude : list string) g :
  exists donors g', pick_otus_randomly msa count exclude g = Ok (donors, g').
Proof.
  rewrite pick_otus_randomly_unfold.
  destruct (Nat.ltb_spec (length (candidates msa exclude)) count).
  - eexists _, _. reflexivity.
  - apply sample_total. assumption.
Qed.

(** The second stage returns for a receiver whose name is not empty. *)
Lemma assign_new_total (msa : MSA) (otu : string) (swap_count : nat)
    (receivers : list string) g :
  otu <> "" ->
  exists msa' g', assign_new msa otu swap_count receivers g = Ok (msa', g').
Proof.
  intros Hne. unfold assign_new.
  destruct (pick_otus_randomly_total msa swap_count receivers g)
    as (donors & g1 & E).
  rewrite (bind_step _ _ _ _ _ E).
  destruct (remove_seqs_loop_returns (Coll donors) (length (sequences msa)) 0
              msa) as (msa1 & E1 & _).
  unfold bind at 1, lift, remove_seqs_from_otu. rewrite E1.
  apply randomly_assign_seqs_total. apply set_of_string_nonempty. exact Hne.
Qed.

Lemma swap_receiver_first (receivers : list string) (msa : MSA)
    (affected : set string) (otu : string) g :
  NoDup (sequences msa) -> otu <> "" ->
  exists st' g',
    swap_receiver receivers (mkSwap msa 0 affected) otu (count_otu msa otu) g
    = Ok (st', g').
Proof.
  intros Hnd Hne. unfold swap_receiver.
  destruct (count_otu msa otu <=? 1); [eexists _, _; reflexivity|].
  cbn [swap_count sw_msa Nat.add].
  destruct (remove_old_total msa otu (count_otu msa otu - 1) g)
    as (msa1 & g1 & E1).
  { pose proof (count_otu_collected msa otu Hnd). lia. }
  rewrite (bind_step _ _ _ _ _ E1).
  destruct (assign_new_total msa1 otu (count_otu msa otu - 1) receivers g1 Hne)
    as (msa2 & g2 & E2).
  rewrite (bind_step _ _ _ _ _ E2). eexists _, _. reflexivity.
Qed.

Lemma swap_loop_app (receivers : list string) (d1 d2 : dict) :
  forall st g,
    swap_loop receivers (d1 ++ d2)%list st g
    = (st' <- swap_loop receivers d1 st ;; swap_loop receivers d2 st') g.
Proof.
  induction d1 as [|[otu count] d1 IH]; intros st g; [reflexivity|].
  cbn [swap_loop app]. unfold bind.
  destruct (swap_receiver receivers st otu count g) as [[st1 g1]|e];
    [|reflexivity].
  rewrite IH. reflexivity.
Qed.

(** X20: on an alignment of distinct objects, [replace_receiver_seqs]
    returns, for every state of the random source, when at most one
    receiver has more than one sequence and the name of that receiver is
    not empty. *)
Theorem replace_receiver_seqs_one_surplus (msa : MSA)
    (receivers : list string) (otu : string) g :
  NoDup (sequences msa) ->
  otu <> "" ->
  (forall k, In k receivers -> k <> otu -> count_otu msa k <= 1) ->
  exists st g', replace_receiver_seqs msa receivers g = Ok (st, g').
Proof.
  intros Hnd Hne Hothers. unfold replace_receiver_seqs.
  destruct (in_dec string_dec otu
              (map fst (receivers_in_msa msa receivers))) as [Hin|Hout].
  - apply in_map_iff in Hin. destruct Hin as ([k n] & Ek & Hin).
    simpl in Ek. subst k.
    pose proof (receivers_in_msa_keys_NoDup msa receivers) as Hkeys.
    pose proof (fun k v H =>
                  receivers_in_msa_In msa receivers k v H) as Hdict.
    destruct (in_split _ _ Hin) as (pre & post & Ed).
    rewrite Ed in *. rewrite map_app in Hkeys. cbn [map fst] in Hkeys.
    apply NoDup_remove_2 in Hkeys.
    assert (Hside : forall k v, In (k, v) (pre ++ post)%list -> v <= 1).
    { intros k v Hkv. destruct (Hdict k v) as [Hk ->].
      - apply in_app_or in Hkv. apply in_or_app.
        destruct Hkv; [left|right; right]; assumption.
      - apply Hothers; [exact Hk|]. intros ->. apply Hkeys.
        rewrite <- map_app. apply (in_map fst) in Hkv. exact Hkv. }
    destruct (Hdict otu n) as [_ ->];
      [apply in_or_app; right; left; reflexivity|].
    rewrite swap_loop_app.
    rewrite (bind_step _ _ _ _ _
               (swap_loop_no_surplus receivers pre _ g
                  (fun k v H => Hside k v (in_or_app _ _ _ (or_introl H))))).
    cbn [swap_loop].
    destruct (swap_receiver_first receivers msa (empty_set string) otu g
                Hnd Hne) as (st1 & g1 & E1).
    rewrite (bind_step _ _ _ _ _ E1).
    rewrite (swap_loop_no_surplus receivers post st1 g1
               (fun k v H => Hside k v (in_or_app _ _ _ (or_intror H)))).
    eexists _, _. reflexivity.
  - rewrite swap_loop_no_surplus; [eexists _, _; reflexivity|].
    intros k v Hin. destruct (receivers_in_msa_In _ _ _ _ Hin) as [Hk ->].
    apply Hothers; [exact Hk|]. intros ->. apply Hout.
    apply (in_map fst) in Hin. exact Hin.
Qed.

Lemma replace_receiver_seqs_one_surplus_witness :
  returned (replace_receiver_seqs two_taxa ["Homo"; "Pan"] (rng_of [4; 2]))
  = true.
Proof.
  assert (Hnd : NoDup (sequences two_taxa))
    by (change (sequences two_taxa) with [0; 1; 2; 3];
        repeat constructor; simpl; intuition lia).
  assert (Hne : "Homo" <> "") by discriminate.
  assert (F : forallb (fun k => (String.eqb k "Homo")
                                || (count_otu two_taxa k <=? 1))
                      ["Homo"; "Pan"] = true) by (vm_compute; reflexivity).
  rewrite forallb_forall in F.
  destruct (replace_receiver_seqs_one_surplus two_taxa ["Homo"; "Pan"] "Homo"
              (rng_of [4; 2]) Hnd Hne) as (st & g' & E).
  - intros k Hk Hneq. specialize (F k Hk). apply orb_prop in F.
    destruct F as [F|F]; [apply String.eqb_eq in F; contradiction|].
    apply Nat.leb_le, F.
  - rewrite E. reflexivity.
Defined.

(** Removing sequences cannot add a candidate. *)
Lemma candidates_shrink (msa msa1 : MSA) (exclude : list string) :
  store msa1 = store msa ->
  incl (sequences msa1) (sequences msa) ->
  length (candidates msa1 exclude) <= length (candidates msa exclude).
Proof.
  intros Hs Hi. apply NoDup_incl_length.
  - apply NoDup_filter, otus_NoDup.
  - intros o Ho. unfold candidates in *. apply filter_In in Ho.
    destruct Ho as [Ho Hex]. apply filter_In. split; [|exact Hex].
    apply otus_In in Ho. destruct Ho as (seq & Hseq & E).
    apply otus_In. exists seq. split; [apply Hi, Hseq|].
    unfold otu_of in *. rewrite <- Hs. exact E.
Qed.

(** X21: when the OTUs of the alignment that are not receivers are fewer
    than the value [swap_count] takes at a receiver with more than one
    sequence, the iteration for that receiver only removes: nothing is
    imported and no error is raised, no object changes, and the alignment
    is left with [swap_count] sequences fewer, all of them sequences it
    had. *)
Theorem swap_receiver_donor_shortage (receivers : list string)
    (st : swap_state) (otu : string) (count : nat) g (st' : swap_state) g' :
  swap_receiver receivers st otu count g = Ok (st', g') ->
  1 < count ->
  length (candidates (sw_msa st) receivers) < swap_count st + (count - 1) ->
  swap_count st' = swap_count st + (count - 1) /\
  store (sw_msa st') = store (sw_msa st) /\
  incl (sequences (sw_msa st')) (sequences (sw_msa st)) /\
  length (sequences (sw_msa st')) + swap_count st'
  = length (sequences (sw_msa st)).
Proof.
  unfold swap_receiver. intros H Hcount Hshort.
  destruct (Nat.leb_spec count 1); [lia|]. run_ok H.
  apply ret_ok in H. destruct H as [-> _]. cbn [swap_count sw_msa].
  pose proof (remove_old_ok _ _ _ _ _ _ Hc) as (Hs & Hi & Hlen).
  rewrite assign_new_no_donor in Hc0.
  - injection Hc0 as <- _. repeat split; assumption.
  - pose proof (candidates_shrink _ _ receivers Hs Hi). lia.
Qed.

Lemma swap_receiver_donor_shortage_witness :
  match swap_receiver ["A"; "B"] (mkSwap three_and_two 0 (empty_set string))
          "A" 3 (rng_of [2; 0]) with
  | Ok (st', _) =>
      length (sequences (sw_msa st')) + swap_count st'
      = length (sequences
                  (sw_msa (mkSwap three_and_two 0 (empty_set string))))
  | Raise _ => False
  end.
Proof.
  assert (R : returned (swap_receiver ["A"; "B"]
                          (mkSwap three_and_two 0 (empty_set string))
                          "A" 3 (rng_of [2; 0])) = true)
    by (vm_compute; reflexivity).
  destruct (swap_receiver ["A"; "B"]
              (mkSwap three_and_two 0 (empty_set string)) "A" 3
              (rng_of [2; 0])) as [[st' g']|e] eqn:E; [|discriminate R].
  assert (C : 1 < 3) by lia.
  assert (S : length (candidates
                        (sw_msa (mkSwap three_and_two 0 (empty_set string)))
                        ["A"; "B"])
              < swap_count (mkSwap three_and_two 0 (empty_set string))
                + (3 - 1))
    by (apply Nat.ltb_lt; vm_compute; reflexivity).
  exact (proj2 (proj2 (proj2
           (swap_receiver_donor_shortage _ _ _ _ _ _ _ E C S)))).
Defined.

Lemma list_remove_distinct (x : ref) (l l' : list ref) :
  NoDup l -> list_remove x l = Ok l' ->
  l' = filter (fun r => negb (r =? x)) l /\ NoDup l'.
Proof.
  revert l'. induction l as [|y l IH]; intros l' Hnd H; simpl in H;
    [discriminate|].
  inversion Hnd as [|? ? Hy Hl]; subst. simpl.
  destruct (Nat.eqb_spec y x) as [->|Hne]; simpl.
  - injection H as <-. split; [|exact Hl]. symmetry.
    apply forallb_filter_id. apply forallb_forall. intros z Hz.
    destruct (Nat.eqb_spec z x) as [->|]; [contradiction|reflexivity].
  - destruct (list_remove x l) as [l1|] eqn:E; [|discriminate].
    injection H as <-. destruct (IH l1 Hl eq_refl) as [-> Hnd1].
    split; [reflexivity|]. constructor; [|exact Hnd1].
    intros Hin. apply filter_In in Hin. apply Hy, Hin.
Qed.

Lemma remove_each_distinct (chosen : list ref) : forall msa msa',
  NoDup (sequences msa) ->
  remove_each msa chosen = Ok msa' ->
  sequences msa'
  = filter (fun r => negb (existsb (Nat.eqb r) chosen)) (sequences msa).
Proof.
  induction chosen as [|seq chosen IH]; intros msa msa' Hnd H; simpl in H.
  - injection H as <-. symmetry. apply forallb_filter_id.
    apply forallb_forall. reflexivity.
  - destruct (remove_sequence msa seq) as [msa1|] eqn:E; [|discriminate].
    apply remove_sequence_ok in E. destruct E as (_ & _ & Hl).
    destruct (list_remove_distinct _ _ _ Hnd Hl) as [E1 Hnd1].
    rewrite (IH _ _ Hnd1 H), E1. clear.
    induction (sequences msa) as [|r l IHl]; simpl; [reflexivity|].
    destruct (r =? seq); simpl; [exact IHl|].
    destruct (existsb (Nat.eqb r) chosen); simpl; [exact IHl|].
    f_equal. exact IHl.
Qed.

(** X22: on an alignment of distinct objects, the first stage of an
    iteration of [replace_receiver_seqs] takes [swap_count] distinct
    sequences among those collected for the receiver out of the alignment
    and leaves every other sequence in place, in order; no object
    changes. *)
Theorem remove_old_spec (msa : MSA) (otu : string) (swap_count : nat) g
    (msa' : MSA) g' :
  NoDup (sequences msa) ->
  remove_old msa otu swap_count g = Ok (msa', g') ->
  exists chosen,
    length chosen = swap_count /\ NoDup chosen /\
    (forall seq, In seq chosen ->
                 In seq (get_seqs_from_otus msa (Str otu))) /\
    sequences msa'
    = filter (fun r => negb (existsb (Nat.eqb r) chosen)) (sequences msa) /\
    store msa' = store msa.
Proof.
  unfold remove_old. intros Hnd H. run_ok H.
  apply lift_ok in H. destruct H as [H _].
  apply sample_ok in Hc. destruct Hc as (Hlen & Hin & Hnd').
  exists a. split; [exact Hlen|].
  split; [apply Hnd', get_seqs_from_otus_NoDup|]. split; [exact Hin|].
  split; [apply (remove_each_distinct _ _ _ Hnd H)|].
  apply remove_each_ok in H. apply H.
Qed.

Lemma remove_old_spec_witness :
  match remove_old two_taxa "Homo" 1 (rng_of [1]) with
  | Ok (msa', _) =>
      exists chosen,
        length chosen = 1 /\
        sequences msa'
        = filter (fun r => negb (existsb (Nat.eqb r) chosen))
                 (sequences two_taxa)
  | Raise _ => False
  end.
Proof.
  assert (R : returned (remove_old two_taxa "Homo" 1 (rng_of [1])) = true)
    by (vm_compute; reflexivity).
  assert (Hnd : NoDup (sequences two_taxa))
    by (change (sequences two_taxa) with [0; 1; 2; 3];
        repeat constructor; simpl; intuition lia).
  destruct (remove_old two_taxa "Homo" 1 (rng_of [1])) as [[msa' g']|e] eqn:E;
    [|discriminate R].
  destruct (remove_old_spec _ _ _ _ _ _ Hnd E)
    as (chosen & Hlen & _ & _ & Hseq & _).
  exists chosen. split; [exact Hlen|exact Hseq].
Defined.

Lemma randomly_assign_seqs_data (seqs : list ref) :
  forall msa otus g msa' g',
    randomly_assign_seqs msa seqs otus g = Ok (msa', g') ->
    forall r, sequence_data (store msa' r) = sequence_data (store msa r).
Proof.
  induction seqs as [|seq seqs IH]; intros msa otus g msa' g' H r;
    simpl in H.
  - apply ret_ok in H. destruct H as [-> _]. reflexivity.
  - run_ok H. rewrite (IH _ _ _ _ _ H r), assign_store.
    destruct (Nat.eqb_spec r seq) as [->|]; reflexivity.
Qed.

Lemma remove_seqs_loop_fresh (otus : container) (fuel : nat) :
  forall index msa msa',
    remove_seqs_loop fuel index otus msa = Ok msa' -> fresh msa' = fresh msa.
Proof.
  induction fuel as [|fuel IH]; intros index msa msa' H;
    cbn [remove_seqs_loop] in H.
  - injection H as <-. reflexivity.
  - destruct (nth_error (sequences msa) index) as [seq|];
      [|injection H as <-; reflexivity].
    destruct (contains otus (otu_of msa seq)); [|apply (IH _ _ _ H)].
    destruct (remove_sequence msa seq) as [m1|] eqn:R; [|discriminate].
    apply remove_sequence_ok in R. destruct R as (_ & Hf1 & _).
    rewrite (IH _ _ _ H). exact Hf1.
Qed.

(** What the second stage does to the list and to the objects. *)
Lemma assign_new_shape (msa : MSA) (otu : string) (swap_count : nat)
    (receivers : list string) g (msa' : MSA) g' :
  assign_new msa otu swap_count receivers g = Ok (msa', g') ->
  exists donors kept,
    (donors = [] \/ length donors = swap_count) /\ NoDup donors /\
    (forall d, In d donors -> In d (otus msa) /\ ~ In d receivers) /\
    sequences msa' = (kept ++ get_seqs_from_otus msa (Coll donors))%list /\
    incl kept (sequences msa) /\
    filter (fun r => negb (mem (otu_of msa r) donors)) kept
    = filter (fun r => negb (mem (otu_of msa r) donors)) (sequences msa) /\
    fresh msa' = fresh msa /\
    forall r, sequence_data (store msa' r) = sequence_data (store msa r).
Proof.
  unfold assign_new. intros H. run_ok H.
  apply lift_ok in Hc0. destruct Hc0 as [Hrem _].
  exists a, (sequences a0).
  assert (Hdonors : (a = [] \/ length a = swap_count) /\ NoDup a /\
                    forall d, In d a -> In d (otus msa) /\ ~ In d receivers).
  { rewrite pick_otus_randomly_unfold in Hc.
    destruct (length (candidates msa receivers) <? swap_count).
    - apply ret_ok in Hc. destruct Hc as [-> _].
      split; [left; reflexivity|]. split; [constructor|]. intros d [].
    - apply sample_ok in Hc. destruct Hc as (Hlen & Hin & Hnd).
      split; [right; exact Hlen|].
      split; [apply Hnd, NoDup_filter, otus_NoDup|].
      intros d Hd. apply Hin in Hd. unfold candidates in Hd.
      apply filter_In in Hd. destruct Hd as [Hd Hex].
      split; [exact Hd|]. apply mem_false.
      destruct (mem d receivers); [discriminate|reflexivity]. }
  destruct Hdonors as (H1 & H2 & H3).
  split; [exact H1|]. split; [exact H2|]. split; [exact H3|].
  unfold remove_seqs_from_otu in Hrem.
  destruct (remove_seqs_loop_returns (Coll a) (length (sequences msa)) 0 msa)
    as (m & Em & Hs).
  rewrite Em in Hrem. injection Hrem as ->.
  destruct (remove_seqs_loop_keeps _ _ _ _ _ Em) as [Hkeep Hincl].
  destruct (randomly_assign_seqs_appends _ _ _ _ _ _ H) as (Hseq & Hf & _).
  split; [exact Hseq|]. split; [exact Hincl|]. split; [exact Hkeep|].
  split.
  - rewrite Hf. apply (remove_seqs_loop_fresh _ _ _ _ _ Em).
  - intros r. rewrite (randomly_assign_seqs_data _ _ _ _ _ _ H r), Hs.
    reflexivity.
Qed.



Lemma remove_old_fresh (msa : MSA) (otu : string) (swap_count : nat) g
    (msa' : MSA) g' :
  remove_old msa otu swap_count g = Ok (msa', g') -> fresh msa' = fresh msa.
Proof.
  unfold remove_old. intros H. run_ok H.
  apply lift_ok in H. destruct H as [H _].
  apply remove_each_ok in H. apply H.
Qed.

Lemma swap_loop_invariant (receivers : list string) (receiver_count : dict) :
  forall st g st' g',
    swap_loop receivers receiver_count st g = Ok (st', g') ->
    incl (sequences (sw_msa st')) (sequences (sw_msa st)) /\
    fresh (sw_msa st') = fresh (sw_msa st) /\
    forall r, sequence_data (store (sw_msa st') r)
              = sequence_data (store (sw_msa st) r).
Proof.
  induction receiver_count as [|[otu count] rest IH]; intros st g st' g' H.
  - apply ret_ok in H. destruct H as [-> _].
    split; [apply incl_refl|]. split; reflexivity.
  - cbn [swap_loop] in H. run_ok H. apply IH in H.
    destruct H as (Hi & Hf & Hd). unfold swap_receiver in Hc.
    destruct (count <=? 1).
    + apply ret_ok in Hc. destruct Hc as [-> _].
      split; [exact Hi|]. split; [exact Hf|exact Hd].
    + run_ok Hc. apply ret_ok in Hc. destruct Hc as [-> _].
      cbn [sw_msa] in *.
      pose proof (remove_old_ok _ _ _ _ _ _ Hc0) as (Hs1 & Hi1 & _).
      pose proof (remove_old_fresh _ _ _ _ _ _ Hc0) as Hf1.
      apply assign_new_shape in Hc1.
      destruct Hc1 as (donors & kept & _ & _ & _ & Hseq & Hk & _ & Hf2 & Hd2).
      split; [|split].
      * intros r Hr. apply Hi in Hr. rewrite Hseq in Hr.
        apply Hi1. apply in_app_or in Hr. destruct Hr as [Hr|Hr].
        -- apply Hk, Hr.
        -- apply get_seqs_from_otus_In in Hr. apply Hr.
      * rewrite Hf, Hf2. exact Hf1.
      * intros r. rewrite Hd, Hd2, Hs1. reflexivity.
Qed.

(** X24: [replace_receiver_seqs] constructs no sequence and changes the
    data of none: when it returns, every sequence of the alignment is an
    object the alignment had before the call, with the sequence data it
    had. *)
Theorem replace_receiver_seqs_keeps_data (msa : MSA)
    (receivers : list string) g (st : swap_state) g' :
  replace_receiver_seqs msa receivers g = Ok (st, g') ->
  incl (sequences (sw_msa st)) (sequences msa) /\
  forall r, sequence_data (store (sw_msa st) r)
            = sequence_data (store msa r).
Proof.
  unfold replace_receiver_seqs. intros H.
  apply swap_loop_invariant in H. destruct H as (Hi & _ & Hd).
  split; [exact Hi|exact Hd].
Qed.

Lemma replace_receiver_seqs_keeps_data_witness :
  match replace_receiver_seqs two_receivers ["A"; "B"] (rng_of []) with
  | Ok (st, _) => incl (sequences (sw_msa st)) (sequences two_receivers)
  | Raise _ => False
  end.
Proof.
  assert (R : returned (replace_receiver_seqs two_receivers ["A"; "B"]
                          (rng_of [])) = true) by (vm_compute; reflexivity).
  destruct (replace_receiver_seqs two_receivers ["A"; "B"] (rng_of []))
    as [[st g']|e] eqn:E; [|discriminate R].
  apply (replace_receiver_seqs_keeps_data _ _ _ _ _ E).
Defined.

Lemma contaminate_objects (st : contamination_state) (otu : string)
    (max_substitutions : nat) g (st' : contamination_state) g' :
  contaminate st otu max_substitutions g = Ok (st', g') ->
  fresh (cc_msa st') = S (fresh (cc_msa st)) /\
  (forall r, r <> fresh (cc_msa st) ->
             store (cc_msa st') r = store (cc_msa st) r) /\
  (forall r, In r (sequences (cc_msa st')) ->
             In r (sequences (cc_msa st)) \/ r = fresh (cc_msa st)).
Proof.
  intros H. split; [|split].
  - unfold contaminate in H. run_ok H.
    destruct a1 as [contaminated_seq substitutions]. run_ok H.
    apply ret_ok in H. destruct H as [-> _]. cbn [cc_msa].
    apply lift_ok in Hc4. destruct Hc4 as [Hrem _].
    apply remove_sequence_ok in Hrem. destruct Hrem as (_ & Hf & _).
    exact Hf.
  - apply contaminate_shape in H.
    destruct H as (o & c & cs & k & rest & g1 & g2 & _ & _ & _ & _ & _
                   & Hstore & _).
    intros r Hr. rewrite Hstore, new_sequence_store.
    destruct (Nat.eqb_spec r (fresh (cc_msa st))); [contradiction|].
    reflexivity.
  - apply contaminate_shape in H.
    destruct H as (o & c & cs & k & rest & g1 & g2 & _ & _ & _ & Hrem & Hseq
                   & _).
    intros r Hr. rewrite Hseq in Hr. apply in_app_or in Hr.
    destruct Hr as [Hr|[<-|[]]]; [left|right; reflexivity].
    apply list_remove_ok in Hrem. apply Hrem, Hr.
Qed.

Lemma contaminate_loop_objects (likelihood : float)
    (max_substitutions : nat) (receiver_count : dict) :
  forall st g st' g',
    contaminate_loop likelihood max_substitutions receiver_count st g
    = Ok (st', g') ->
    fresh (cc_msa st) <= fresh (cc_msa st') /\
    (forall r, r < fresh (cc_msa st) ->
               store (cc_msa st') r = store (cc_msa st) r) /\
    (forall r, In r (sequences (cc_msa st')) ->
               In r (sequences (cc_msa st)) \/ fresh (cc_msa st) <= r).
Proof.
  induction receiver_count as [|[otu count] rest IH]; intros st g st' g' H.
  - apply ret_ok in H. destruct H as [-> _]. split; [lia|]. split; auto.
  - cbn [contaminate_loop] in H. run_ok H. apply IH in H.
    destruct H as (Hf & Hs & Hi). unfold contaminate_receiver in Hc.
    destruct (count =? 0).
    + apply ret_ok in Hc. destruct Hc as [-> _]. split; [exact Hf|].
      split; assumption.
    + run_ok Hc. destruct (spared likelihood a0).
      * apply ret_ok in Hc. destruct Hc as [-> _]. split; [exact Hf|].
        split; assumption.
      * apply contaminate_objects in Hc. destruct Hc as (Hf1 & Hs1 & Hi1).
        split; [lia|]. split.
        -- intros r Hr. rewrite Hs by lia. apply Hs1. lia.
        -- intros r Hr. apply Hi in Hr. destruct Hr as [Hr|Hr]; [|right; lia].
           apply Hi1 in Hr. destruct Hr as [Hr | ->]; [left; exact Hr|].
           right. lia.
Qed.

(** X25: [cross_contaminate] changes no sequence object that existed
    before the call: when it returns, every object of before has the
    fields it had, and every sequence of the alignment is either a
    sequence the alignment had or an object constructed during the
    call. *)
Theorem cross_contaminate_keeps_objects (msa : MSA)
    (receivers : list string) (likelihood : float)
    (max_substitutions : nat) g (st : contamination_state) g' :
  cross_contaminate msa receivers likelihood max_substitutions g
  = Ok (st, g') ->
  (forall r, r < fresh msa -> store (cc_msa st) r = store msa r) /\
  (forall r, In r (sequences (cc_msa st)) ->
             In r (sequences msa) \/ fresh msa <= r).
Proof.
  unfold cross_contaminate. intros H.
  apply contaminate_loop_objects in H. destruct H as (_ & Hs & Hi).
  split; [exact Hs|exact Hi].
Qed.

Lemma cross_contaminate_keeps_objects_witness :
  match cross_contaminate two_taxa ["Homo"; "Mus"] 1 3
          (rng_of [1; 1; 2; 3; 2; 1; 2; 3; 2; 5; 3; 1]) with
  | Ok (st, _) =>
      forall r, r < fresh two_taxa -> store (cc_msa st) r = store two_taxa r
  | Raise _ => False
  end.
Proof.
  assert (R : returned (cross_contaminate two_taxa ["Homo"; "Mus"] 1 3
                          (rng_of [1; 1; 2; 3; 2; 1; 2; 3; 2; 5; 3; 1]))
              = true) by (vm_compute; reflexivity).
  destruct (cross_contaminate two_taxa ["Homo"; "Mus"] 1 3
              (rng_of [1; 1; 2; 3; 2; 1; 2; 3; 2; 5; 3; 1]))
    as [[st g']|e] eqn:E; [|discriminate R].
  apply (cross_contaminate_keeps_objects _ _ _ _ _ _ _ E).
Defined.

(** ** The counts of an iteration of replace_receiver_seqs *)




